(** * Monthly consumption of a utility service

    A shallow embedding of [Service.consumption_for_month]
    (utilities_tracker/models.py) together with the parts of Python it
    relies on: [datetime.date] comparison, the stable [sorted] builtin,
    and [decimal.Decimal] addition and subtraction under the default
    context (28 significant digits, ROUND_HALF_EVEN, exponents in
    [-999999, 999999], traps on InvalidOperation and Overflow).  The
    method is given twice: over the readings as a value, and, in module
    [Py], over a store of objects that a statement can read, extend and
    overwrite. *)

From Stdlib Require Import ZArith List Bool Lia Permutation Sorted.
From Stdlib Require String.
Import ListNotations.

Local Open Scope Z_scope.

(** ** Outcomes of a Python expression: a value or a raised exception *)

Inductive exn : Type :=
| InvalidOperation
| Overflow.

Inductive result (A : Type) : Type :=
| Returns (a : A)
| Raises (e : exn).

Arguments Returns {A} a.
Arguments Raises {A} e.

Definition bind {A B : Type} (r : result A) (k : A -> result B) : result B :=
  match r with
  | Returns a => k a
  | Raises e => Raises e
  end.

Notation "x <- r ;; k" := (bind r (fun x => k))
  (at level 61, r at next level, right associativity).

(** ** decimal.Decimal *)

Module Dec.

(** A Decimal is the triple (_sign, _int, _exp) or a special value. *)
Inductive t : Type :=
| Finite (sign : bool) (coefficient : N) (exponent : Z)
| Infinity (sign : bool)
| NaN (sign : bool) (signaling : bool).

(** The default context. *)
Definition prec : Z := 28.
Definition Emax : Z := 999999.
Definition Emin : Z := -999999.
Definition Etiny : Z := Emin - prec + 1.
Definition Etop : Z := Emax - prec + 1.

(** Number of decimal digits of a non-negative integer, len(str(c)). *)
Fixpoint ndigits_fuel (fuel : nat) (c : Z) : Z :=
  match fuel with
  | O => 1
  | S fuel' => if c <? 10 then 1 else 1 + ndigits_fuel fuel' (c / 10)
  end.

Definition ndigits (c : Z) : Z := ndigits_fuel (Z.to_nat (Z.log2 c)) c.

(** Decimal._fix: round a finite value [sign, c, e] (with [0 <= c]) to the
    context.  The context's clamp flag is 0, so values with few digits and
    a large exponent are not folded down. *)
Definition fix_ (sign : bool) (c : Z) (e : Z) : result t :=
  if c =? 0 then
    Returns (Finite sign 0 (Z.min (Z.max e Etiny) Emax))
  else
    let exp_min := ndigits c + e - prec in
    if Etop <? exp_min then Raises Overflow
    else
      let exp_min := Z.max exp_min Etiny in
      if e <? exp_min then
        let k := exp_min - e in
        let q := c / 10 ^ k in
        let r := c mod 10 ^ k in
        let half := 5 * 10 ^ (k - 1) in
        let q' := if (half <? r) || ((r =? half) && Z.odd q)
                  then q + 1 else q in
        if 10 ^ prec <=? q' then
          if Etop <? exp_min + 1 then Raises Overflow
          else Returns (Finite sign (Z.to_N (q' / 10)) (exp_min + 1))
        else Returns (Finite sign (Z.to_N q') exp_min)
      else Returns (Finite sign (Z.to_N c) e).

Definition signed (sign : bool) (c : N) : Z :=
  if sign then - Z.of_N c else Z.of_N c.

(** Decimal._check_nans: a signaling NaN raises, a quiet NaN propagates. *)
Definition check_nans (a b : t) : option (result t) :=
  match a, b with
  | NaN _ true, _ => Some (Raises InvalidOperation)
  | _, NaN _ true => Some (Raises InvalidOperation)
  | NaN s false, _ => Some (Returns (NaN s false))
  | _, NaN s false => Some (Returns (NaN s false))
  | _, _ => None
  end.

(** Decimal.__add__ *)
Definition add (a b : t) : result t :=
  match check_nans a b with
  | Some r => r
  | None =>
      match a, b with
      | Infinity s1, Infinity s2 =>
          if Bool.eqb s1 s2 then Returns (Infinity s1)
          else Raises InvalidOperation
      | Infinity s1, _ => Returns (Infinity s1)
      | _, Infinity s2 => Returns (Infinity s2)
      | Finite s1 c1 e1, Finite s2 c2 e2 =>
          let e := Z.min e1 e2 in
          let z := signed s1 c1 * 10 ^ (e1 - e)
                   + signed s2 c2 * 10 ^ (e2 - e) in
          let s := if z =? 0 then s1 && s2 else z <? 0 in
          fix_ s (Z.abs z) e
      | _, _ => Raises InvalidOperation  (* a NaN: answered by check_nans *)
      end
  end.

Definition copy_negate (a : t) : t :=
  match a with
  | Finite s c e => Finite (negb s) c e
  | Infinity s => Infinity (negb s)
  | NaN s sg => NaN (negb s) sg
  end.

(** Decimal.__sub__ *)
Definition sub (a b : t) : result t :=
  match check_nans a b with
  | Some r => r
  | None => add a (copy_negate b)
  end.

(** Decimal("0") *)
Definition zero : t := Finite false 0 0.

Definition is_finite (a : t) : bool :=
  match a with
  | Finite _ _ _ => true
  | _ => false
  end.

(** *** Values of a Numeric(12, 3) column

    [Measurement.value] is declared [db.Numeric(12, 3)]: twelve digits,
    three of them after the point.  Such a value is a whole number of
    thousandths, below 10^12 in magnitude. *)

(** A finite value with at most three decimal places. *)
Definition on_grid (a : t) : bool :=
  match a with
  | Finite _ _ e => -3 <=? e
  | _ => false
  end.

(** The value counted in thousandths (meaningful on the grid). *)
Definition thousandths (a : t) : Z :=
  match a with
  | Finite s c e => signed s c * 10 ^ (e + 3)
  | _ => 0
  end.

Definition fits_numeric_12_3 (a : t) : bool :=
  on_grid a && (Z.abs (thousandths a) <? 10 ^ 12).

(** *** Values on the grid of an exponent [g]

    A Decimal itself is not tied to three decimal places.  A finite value
    whose exponent is at least [g] is a whole number of units of 10^g. *)

Definition on_grid_at (g : Z) (a : t) : bool :=
  match a with
  | Finite _ _ e => g <=? e
  | _ => false
  end.

(** The value counted in units of 10^g (meaningful on that grid). *)
Definition units (g : Z) (a : t) : Z :=
  match a with
  | Finite s c e => signed s c * 10 ^ (e - g)
  | _ => 0
  end.

(** On the grid of [g], and of at most 27 digits when written there. *)
Definition fits_at (g : Z) (a : t) : bool :=
  on_grid_at g a && (Z.abs (units g a) <? 10 ^ 27).

(** A finite value of magnitude below 10^n: zero, or a coefficient whose
    number of digits and exponent add up to at most [n]. *)
Definition below (n : Z) (a : t) : bool :=
  match a with
  | Finite _ c e => (Z.of_N c =? 0) || (ndigits (Z.of_N c) + e <=? n)
  | _ => false
  end.

End Dec.

(** ** datetime.date *)

Module Date.

Record t : Type := make { year : Z; month : Z; day : Z }.

(** date.__lt__ compares (year, month, day) lexicographically. *)
Definition ltb (a b : t) : bool :=
  (year a <? year b)
  || ((year a =? year b)
      && ((month a <? month b)
          || ((month a =? month b) && (day a <? day b)))).

(** date.__eq__ *)
Definition eqb (a b : t) : bool :=
  (year a =? year b) && (month a =? month b) && (day a =? day b).

Definition is_leap (y : Z) : bool :=
  (y mod 4 =? 0) && (negb (y mod 100 =? 0) || (y mod 400 =? 0)).

Definition days_in_month (y m : Z) : Z :=
  if m =? 2 then (if is_leap y then 29 else 28)
  else if (m =? 4) || (m =? 6) || (m =? 9) || (m =? 11) then 30
  else 31.

(** The triples the [date] constructor accepts (MINYEAR = 1,
    MAXYEAR = 9999). *)
Definition valid (d : t) : bool :=
  (1 <=? year d) && (year d <=? 9999)
  && (1 <=? month d) && (month d <=? 12)
  && (1 <=? day d) && (day d <=? days_in_month (year d) (month d)).

End Date.

(** ** Measurement and Service rows *)

(** Of a Measurement the method reads [date] and [value] only; [id], [note]
    and [service_id] are left out. *)
Record Measurement : Type :=
  mkMeasurement { date : Date.t; value : Dec.t }.

(** Of a Service the method reads the [measurements] relationship only. *)
Record Service : Type := mkService { measurements : list Measurement }.

(** ** sorted(self.measurements, key=lambda m: m.date)

    [sorted] is stable: readings with the same date keep their relative
    order.  The stable sort of a list is unique; it is written here as an
    insertion sort that puts a reading in front of the first one that is not
    dated earlier. *)

Fixpoint insert (m : Measurement) (l : list Measurement) : list Measurement :=
  match l with
  | [] => [m]
  | x :: l' =>
      if Date.ltb (date x) (date m) then x :: insert m l'
      else m :: x :: l'
  end.

Fixpoint sorted (l : list Measurement) : list Measurement :=
  match l with
  | [] => []
  | m :: l' => insert m (sorted l')
  end.

(** ** Service.consumption_for_month *)

(** m.date.year == year and m.date.month == month *)
Definition in_month (year month : Z) (m : Measurement) : bool :=
  (Date.year (date m) =? year) && (Date.month (date m) =? month).

(** next((x for x in reversed(ms) if x.date < m.date), None) *)
Definition prev_reading (ms : list Measurement) (m : Measurement)
  : option Measurement :=
  find (fun x => Date.ltb (date x) (date m)) (rev ms).

(** prev.value if prev else Decimal("0") *)
Definition value_or_zero (prev : option Measurement) : Dec.t :=
  match prev with
  | Some p => value p
  | None => Dec.zero
  end.

(** One iteration of [for m in ms], on the loop variables
    (total, prev_value). *)
Definition loop_body (ms : list Measurement) (year month : Z)
    (st : Dec.t * option Dec.t) (m : Measurement)
  : result (Dec.t * option Dec.t) :=
  let '(total, prev_value) := st in
  if in_month year month m then
    let prev_value :=
      match prev_value with
      | None => value_or_zero (prev_reading ms m)
      | Some v => v
      end in
    d <- Dec.sub (value m) prev_value ;;
    total <- Dec.add total d ;;
    Returns (total, Some (value m))
  else Returns (total, prev_value).

Fixpoint for_each {S : Type} (body : S -> Measurement -> result S)
    (l : list Measurement) (st : S) : result S :=
  match l with
  | [] => Returns st
  | m :: l' => st' <- body st m ;; for_each body l' st'
  end.

(** The method: what it returns (or raises), and the Service afterwards. *)
Definition consumption_for_month (self : Service) (year month : Z)
  : result Dec.t * Service :=
  let ms := sorted (measurements self) in
  let total := Dec.zero in
  let prev_value := @None Dec.t in
  (st <- for_each (loop_body ms year month) ms (total, prev_value) ;;
   Returns (fst st),
   self).

(** The outcome of a call on a Service holding the given readings. *)
Definition consumption (readings : list Measurement) (year month : Z)
  : result Dec.t :=
  fst (consumption_for_month (mkService readings) year month).

(** ** Vocabulary of the specification *)

(** Every value fits the column type of [Measurement.value]. *)
Definition numeric_ok (readings : list Measurement) : bool :=
  forallb (fun m => Dec.fits_numeric_12_3 (value m)) readings.

(** Every date is one the [date] constructor accepts. *)
Definition dates_valid (readings : list Measurement) : bool :=
  forallb (fun m => Date.valid (date m)) readings.

Definition first_day (year month : Z) : Date.t := Date.make year month 1.

(** Dated in an earlier month, resp. a later month, than the target. *)
Definition before_month (year month : Z) (m : Measurement) : bool :=
  (Date.year (date m) <? year)
  || ((Date.year (date m) =? year) && (Date.month (date m) <? month)).

Definition after_month (year month : Z) (m : Measurement) : bool :=
  (year <? Date.year (date m))
  || ((Date.year (date m) =? year) && (month <? Date.month (date m))).

Definition up_to_month (year month : Z) (m : Measurement) : bool :=
  negb (after_month year month m).

(** The most recent reading among those that satisfy [p], by one pass over
    the collection in any order; of two candidates with the same date the one
    later in the collection is kept. *)
Fixpoint latest (p : Measurement -> bool) (l : list Measurement)
  : option Measurement :=
  match l with
  | [] => None
  | x :: l' =>
      match latest p l' with
      | Some b => if p x && Date.ltb (date b) (date x) then Some x else Some b
      | None => if p x then Some x else None
      end
  end.

Definition latest_before (d : Date.t) (l : list Measurement)
  : option Measurement :=
  latest (fun x => Date.ltb (date x) d) l.

(** The carry-in value for a month: the value of the most recent reading of
    an earlier month, or zero. *)
Definition carry_in (readings : list Measurement) (year month : Z) : Dec.t :=
  value_or_zero (latest (before_month year month) readings).

(** [a] is dated no later than [b]. *)
Definition date_le (a b : Measurement) : Prop :=
  Date.ltb (date b) (date a) = false.

(** The same, said without a search: [c] is the value of a reading of an
    earlier month that no reading of an earlier month is dated after (the
    readings of its date agreeing on the value), or [c] is zero and no
    reading is of an earlier month. *)
Definition is_carry_in (readings : list Measurement) (year month : Z)
    (c : Dec.t) : Prop :=
  (exists b,
      In b readings
      /\ before_month year month b = true
      /\ (forall m, In m readings -> before_month year month m = true ->
                    date_le m b)
      /\ (forall m, In m readings -> date m = date b -> value m = value b)
      /\ c = value b)
  \/ ((forall m, In m readings -> before_month year month m = false)
      /\ c = Dec.zero).

(** The differences of successive readings, the first one against [prev]. *)
Fixpoint deltas (prev : Dec.t) (l : list Measurement) : list (result Dec.t) :=
  match l with
  | [] => []
  | m :: l' => Dec.sub (value m) prev :: deltas (value m) l'
  end.

(** Their Decimal sum, taken from the left starting at [total]. *)
Definition sum_from (total : Dec.t) (ds : list (result Dec.t))
  : result Dec.t :=
  fold_left (fun acc d => t <- acc ;; x <- d ;; Dec.add t x) ds
            (Returns total).

(** The readings of the month in ascending date order. *)
Definition month_readings (readings : list Measurement) (year month : Z)
  : list Measurement :=
  filter (in_month year month) (sorted readings).

(** Section 4.1 of the specification: the sum of the pairwise differences of
    the month's readings, the first against the latest earlier reading. *)
Definition sum_of_deltas (readings : list Measurement) (year month : Z)
  : result Dec.t :=
  match month_readings readings year month with
  | [] => Returns Dec.zero
  | first :: rest =>
      sum_from Dec.zero
        (deltas (value_or_zero (latest_before (date first) readings))
                (first :: rest))
  end.

(** The same sum over the integers, in thousandths. *)
Fixpoint exact_deltas (prev : Z) (vs : list Z) : Z :=
  match vs with
  | [] => 0
  | v :: vs' => (v - prev) + exact_deltas v vs'
  end.

Definition exact_sum_of_deltas (readings : list Measurement) (year month : Z)
  : Z :=
  match month_readings readings year month with
  | [] => 0
  | first :: rest =>
      exact_deltas
        (Dec.thousandths
           (value_or_zero (latest_before (date first) readings)))
        (map (fun m => Dec.thousandths (value m)) (first :: rest))
  end.

(** Literals of the examples: [D c e] is the Decimal c * 10^e. *)
Definition D (c : N) (e : Z) : Dec.t := Dec.Finite false c e.

Definition reading (y mo d : Z) (v : Dec.t) : Measurement :=
  mkMeasurement (Date.make y mo d) v.

(** The readings of the method's docstring. *)
Definition docstring_readings : list Measurement :=
  [ reading 2025 1 1 (D 1200 (-1));
    reading 2025 2 1 (D 1500 (-1));
    reading 2025 2 20 (D 1800 (-1)) ].

(** Three readings of February 2025 that rise by 0.1 each, after a reading
    of January that equals the first of them. *)
Definition tenths_readings : list Measurement :=
  [ reading 2025 1 31 (D 1 (-1));
    reading 2025 2 1 (D 1 (-1));
    reading 2025 2 2 (D 2 (-1));
    reading 2025 2 3 (D 3 (-1)) ].

(** Two readings of the same day. *)
Definition same_day_readings : list Measurement :=
  [ reading 2025 2 1 (D 10 0); reading 2025 2 1 (D 20 0) ].

(** *** Beyond the column type *)

(** Every value is on the grid of [g] and has at most 27 digits there. *)
Definition fits_precision (g : Z) (readings : list Measurement) : bool :=
  forallb (fun m => Dec.fits_at g (value m)) readings.

(** Every value is finite and of magnitude below 10^n. *)
Definition magnitudes_below (n : Z) (readings : list Measurement) : bool :=
  forallb (fun m => Dec.below n (value m)) readings.

(** The sum of Section 4.1 over the integers, in units of 10^g. *)
Definition exact_sum_of_deltas_at (g : Z) (readings : list Measurement)
    (year month : Z) : Z :=
  match month_readings readings year month with
  | [] => 0
  | first :: rest =>
      exact_deltas
        (Dec.units g
           (value_or_zero (latest_before (date first) readings)))
        (map (fun m => Dec.units g (value m)) (first :: rest))
  end.

(** 5E-28, then 1.000000000000000000000000001: seen together the two values
    span 29 digits. *)
Definition long_fraction_readings : list Measurement :=
  [ reading 2025 2 1 (D 5 (-28));
    reading 2025 2 2 (D 1000000000000000000000000001 (-27)) ].

(** 0.5, up to a value of 28 digits, and back to 0.5. *)
Definition up_and_down_readings : list Measurement :=
  [ reading 2025 2 1 (D 5 (-1));
    reading 2025 2 2 (D 9999999999999999999999999999 0);
    reading 2025 2 3 (D 5 (-1)) ].

(** 0.5, then a value of 28 digits. *)
Definition wide_readings : list Measurement :=
  [ reading 2025 2 1 (D 5 (-1));
    reading 2025 2 2 (D 9999999999999999999999999999 0) ].

(** -9E+999999 in January, 9E+999999 in February: finite values whose
    difference lies above Emax. *)
Definition huge_readings : list Measurement :=
  [ reading 2025 1 31 (Dec.Finite true 9 999999);
    reading 2025 2 1 (D 9 999999) ].

(** A reading whose value is Decimal("sNaN"). *)
Definition snan_readings : list Measurement :=
  [ reading 2025 2 1 (Dec.NaN false true) ].

(** 0.0001, 1E+40 and 2.5E-29: values that no common grid of 28 digits
    holds. *)
Definition mixed_scale_readings : list Measurement :=
  [ reading 2025 1 31 (D 1 (-4));
    reading 2025 2 1 (D 1 40);
    reading 2025 2 2 (D 25 (-30)) ].

(** Readings with twenty decimal places. *)
Definition twenty_places_readings : list Measurement :=
  [ reading 2025 1 31 (D 314159265358979323846 (-20));
    reading 2025 2 1 (D 1 (-1));
    reading 2025 2 2 (D 271828182845904523536 (-20)) ].

(** ** The measurement table, the relationship and the other methods *)

(** A row of the [measurement] table: a Measurement with its [service_id]
    foreign key. *)
Record MeasurementRow : Type :=
  mkRow { service_id : Z; measurement : Measurement }.

(** ORDER BY date DESC.  SQL leaves the order of rows of one date open; here
    they keep the order in which the table holds them, and the table's order
    is arbitrary. *)
Section OrderBy.

Context {A : Type} (key : A -> Date.t).

Fixpoint insert_desc (r : A) (l : list A) : list A :=
  match l with
  | [] => [r]
  | x :: l' =>
      if Date.ltb (key r) (key x) then x :: insert_desc r l'
      else r :: x :: l'
  end.

Fixpoint order_by_desc (l : list A) : list A :=
  match l with
  | [] => []
  | r :: l' => insert_desc r (order_by_desc l')
  end.

End OrderBy.

(** db.relationship('Measurement', order_by='Measurement.date.desc()'):
    the readings of the service, latest first. *)
Definition relationship_measurements (table : list MeasurementRow) (sid : Z)
  : list Measurement :=
  order_by_desc date
    (map measurement (filter (fun r => service_id r =? sid) table)).

(** The Service with the given id as the session loads it. *)
Definition load_service (table : list MeasurementRow) (sid : Z) : Service :=
  mkService (relationship_measurements table sid).

(** Service.last_measurement:
    self.measurements[0] if self.measurements else None *)
Definition last_measurement (self : Service) : option Measurement :=
  match measurements self with
  | [] => None
  | m :: _ => Some m
  end.

(** Measurement.service_id == self.service_id, Measurement.date < self.date *)
Definition earlier_of_service (self r : MeasurementRow) : bool :=
  (service_id r =? service_id self)
  && Date.ltb (date (measurement r)) (date (measurement self)).

(** Measurement.query.filter(...).order_by(Measurement.date.desc()).first() *)
Definition previous_row (table : list MeasurementRow) (self : MeasurementRow)
  : option MeasurementRow :=
  hd_error
    (order_by_desc (fun r => date (measurement r))
       (filter (earlier_of_service self) table)).

(** Measurement.consumption_from_previous: None, a Decimal, or an exception
    of the subtraction. *)
Definition consumption_from_previous (table : list MeasurementRow)
    (self : MeasurementRow) : result (option Dec.t) :=
  match previous_row table self with
  | None => Returns None
  | Some prev =>
      d <- Dec.sub (value (measurement self)) (value (measurement prev)) ;;
      Returns (Some d)
  end.

(** The property read on a reading [m] of the service [sid]. *)
Definition from_previous (table : list MeasurementRow) (sid : Z)
    (m : Measurement) : result (option Dec.t) :=
  consumption_from_previous table (mkRow sid m).

Definition total (zs : list Z) : Z := fold_right Z.add 0 zs.

(** A table with the docstring's readings for service 1 and a reading of
    another service. *)
Definition example_table : list MeasurementRow :=
  [ mkRow 1 (reading 2025 2 20 (D 1800 (-1)));
    mkRow 2 (reading 2025 2 5 (D 7 0));
    mkRow 1 (reading 2025 1 1 (D 1200 (-1)));
    mkRow 1 (reading 2025 2 1 (D 1500 (-1))) ].

(** ** The method over a store of objects

    [consumption_for_month] above takes the readings as a value.  To say
    what a call does to the objects it is handed, the method is written
    once more over a store of objects: the Service object refers to the list
    behind [self.measurements], the list refers to the Measurement objects,
    and a statement reads an object, allocates a new one or overwrites
    one. *)

Module Py.

Definition ref : Type := nat.

Inductive object : Type :=
| ServiceObject (measurements : ref)
| ListObject (items : list ref)
| MeasurementObject (m : Measurement).

Definition store : Type := list object.

(** A statement ends in a value, in an exception, or in an access that the
    types of the objects rule out. *)
Inductive outcome (A : Type) : Type :=
| Value (a : A)
| Exception (e : exn)
| Wrong.

Arguments Value {A} a.
Arguments Exception {A} e.
Arguments Wrong {A}.

Definition M (A : Type) : Type := store -> outcome A * store.

Definition ret {A : Type} (a : A) : M A := fun h => (Value a, h).

Definition bind {A B : Type} (m : M A) (k : A -> M B) : M B :=
  fun h =>
    let (o, h') := m h in
    match o with
    | Value a => k a h'
    | Exception e => (Exception e, h')
    | Wrong => (Wrong, h')
    end.

Notation "x <~ m ;; k" := (bind m (fun x => k))
  (at level 61, m at next level, right associativity).

Definition wrong {A : Type} : M A := fun h => (Wrong, h).

Definition of_result {A : Type} (r : result A) : outcome A :=
  match r with
  | Returns a => Value a
  | Raises e => Exception e
  end.

(** A Decimal operation; what it raises propagates. *)
Definition lift {A : Type} (r : result A) : M A :=
  fun h => (of_result r, h).

Definition read (r : ref) : M object :=
  fun h =>
    match nth_error h r with
    | Some o => (Value o, h)
    | None => (Wrong, h)
    end.

(** A new object gets a reference that no object has yet. *)
Definition alloc (o : object) : M ref :=
  fun h => (Value (length h), h ++ [o]).

(** Overwriting an object where it is, as [list.sort], [list.append] or an
    assignment to an attribute do. *)
Definition write (r : ref) (o : object) : M unit :=
  fun h =>
    if Nat.ltb r (length h)
    then (Value tt, firstn r h ++ o :: skipn (S r) h)
    else (Wrong, h).

(** self.measurements *)
Definition get_measurements (self : ref) : M ref :=
  o <~ read self ;;
  match o with
  | ServiceObject l => ret l
  | _ => wrong
  end.

(** The items of a list object, as an iteration over it yields them. *)
Definition get_items (l : ref) : M (list ref) :=
  o <~ read l ;;
  match o with
  | ListObject items => ret items
  | _ => wrong
  end.

(** m.date and m.value *)
Definition get_date (m : ref) : M Date.t :=
  o <~ read m ;;
  match o with
  | MeasurementObject r => ret (date r)
  | _ => wrong
  end.

Definition get_value (m : ref) : M Dec.t :=
  o <~ read m ;;
  match o with
  | MeasurementObject r => ret (value r)
  | _ => wrong
  end.

(** The keys [m.date] of the items, in order. *)
Fixpoint keys (items : list ref) : M (list (Date.t * ref)) :=
  match items with
  | [] => ret []
  | m :: items' =>
      d <~ get_date m ;;
      ks <~ keys items' ;;
      ret ((d, m) :: ks)
  end.

(** The stable sort of the items by their keys. *)
Fixpoint insert_keyed (x : Date.t * ref) (l : list (Date.t * ref))
  : list (Date.t * ref) :=
  match l with
  | [] => [x]
  | y :: l' =>
      if Date.ltb (fst y) (fst x) then y :: insert_keyed x l'
      else x :: y :: l'
  end.

Fixpoint sort_keyed (l : list (Date.t * ref)) : list (Date.t * ref) :=
  match l with
  | [] => []
  | x :: l' => insert_keyed x (sort_keyed l')
  end.

(** sorted(l, key=lambda m: m.date): the sorted items go into a new list
    object; [l] is read only. *)
Definition sorted (l : ref) : M ref :=
  items <~ get_items l ;;
  ks <~ keys items ;;
  alloc (ListObject (map snd (sort_keyed ks))).

(** l.sort(key=lambda m: m.date), the counterpart of [sorted] that sorts the
    list object where it is.  The method does not use it. *)
Definition list_sort (l : ref) : M unit :=
  items <~ get_items l ;;
  ks <~ keys items ;;
  write l (ListObject (map snd (sort_keyed ks))).

(** next((x for x in reversed(ms) if x.date < m.date), None) *)
Fixpoint first_before (m : ref) (reversed_ms : list ref)
  : M (option ref) :=
  match reversed_ms with
  | [] => ret None
  | x :: rest =>
      dx <~ get_date x ;;
      dm <~ get_date m ;;
      if Date.ltb dx dm then ret (Some x) else first_before m rest
  end.

(** m.date.year == year and m.date.month == month *)
Definition in_month (year month : Z) (m : ref) : M bool :=
  d <~ get_date m ;;
  if Date.year d =? year
  then d' <~ get_date m ;; ret (Date.month d' =? month)
  else ret false.

(** One iteration of [for m in ms]; [ms] are the items of the sorted list,
    (total, prev_value) the local variables. *)
Definition loop_body (ms : list ref) (year month : Z)
    (st : Dec.t * option Dec.t) (m : ref) : M (Dec.t * option Dec.t) :=
  let '(total, prev_value) := st in
  this_month <~ in_month year month m ;;
  if this_month then
    prev_value <~ match prev_value with
                  | None =>
                      prev <~ first_before m (rev ms) ;;
                      match prev with
                      | Some p => get_value p
                      | None => ret Dec.zero
                      end
                  | Some v => ret v
                  end ;;
    v <~ get_value m ;;
    delta <~ lift (Dec.sub v prev_value) ;;
    total <~ lift (Dec.add total delta) ;;
    v' <~ get_value m ;;
    ret (total, Some v')
  else ret (total, prev_value).

Fixpoint for_each {S : Type} (body : S -> ref -> M S) (l : list ref)
    (st : S) : M S :=
  match l with
  | [] => ret st
  | m :: l' => st' <~ body st m ;; for_each body l' st'
  end.

(** Service.consumption_for_month on the Service object [self]. *)
Definition consumption_for_month (self : ref) (year month : Z) : M Dec.t :=
  l <~ get_measurements self ;;
  ms <~ sorted l ;;
  items <~ get_items ms ;;
  st <~ for_each (loop_body items year month) items (Dec.zero, None) ;;
  ret (fst st).

(** The same method with the list sorted where it is:
    [self.measurements.sort(key=lambda m: m.date)] in place of [sorted]. *)
Definition consumption_for_month_sorting_in_place (self : ref)
    (year month : Z) : M Dec.t :=
  l <~ get_measurements self ;;
  _ <~ list_sort l ;;
  items <~ get_items l ;;
  st <~ for_each (loop_body items year month) items (Dec.zero, None) ;;
  ret (fst st).

(** The objects at [items] are Measurements with the given dates and values,
    in this order. *)
Definition readings_at (h : store) (items : list ref)
    (readings : list Measurement) : Prop :=
  Forall2 (fun r m => nth_error h r = Some (MeasurementObject m))
          items readings.

(** [self] is a Service object whose [measurements] list holds exactly the
    given readings, in this order. *)
Definition service_at (h : store) (self : ref)
    (readings : list Measurement) : Prop :=
  exists l items,
    nth_error h self = Some (ServiceObject l)
    /\ nth_error h l = Some (ListObject items)
    /\ readings_at h items readings.

(** A store with the Service of the docstring: the relationship lists its
    readings latest first. *)
Definition docstring_store : store :=
  [ ServiceObject 1%nat;
    ListObject [4; 3; 2]%nat;
    MeasurementObject (reading 2025 1 1 (D 1200 (-1)));
    MeasurementObject (reading 2025 2 1 (D 1500 (-1)));
    MeasurementObject (reading 2025 2 20 (D 1800 (-1))) ].

End Py.

(** * The exercises *)

(** ** HW_2: the car of the race *)

Module Race.

Record Car : Type :=
  mkCar { model : String.string; color : String.string;
          fuel : Z; trip_distance : Z }.

(** Car.__init__; [drawn] is what random.randrange(0, 8) returns. *)
Definition init (model color : String.string) (drawn : Z) : Car :=
  mkCar model color drawn 0.

(** Car.move *)
Definition move (self : Car) (distance : Z) : Car :=
  let distance := if fuel self <? distance then fuel self else distance in
  let trip_distance := trip_distance self + distance in
  let fuel := fuel self - distance in
  mkCar (model self) (color self) fuel trip_distance.

Definition desired_dist : Z := 12.

(** car.trip_distance >= desired_dist, the test that names the winner *)
Definition reached (car : Car) : bool := desired_dist <=? trip_distance car.

End Race.

(** ** HW_1, task 3: the common elements of two lists *)

Section CommonElements.

Context {A : Type} (eq_dec : forall x y : A, {x = y} + {x <> y}).

(** A Counter: its items in insertion order, each element once. *)

(** mapping[elem] = mapping.get(elem, 0) + 1 *)
Fixpoint count_element (x : A) (c : list (A * nat)) : list (A * nat) :=
  match c with
  | [] => [(x, 1%nat)]
  | (y, n) :: c' =>
      if eq_dec x y then (y, S n) :: c' else (y, n) :: count_element x c'
  end.

(** Counter(iterable) *)
Definition Counter (l : list A) : list (A * nat) :=
  fold_left (fun c x => count_element x c) l [].

(** counter[elem], zero for an element the Counter does not hold *)
Fixpoint counter_get (c : list (A * nat)) (x : A) : nat :=
  match c with
  | [] => 0%nat
  | (y, n) :: c' => if eq_dec x y then n else counter_get c' x
  end.

(** Counter.__and__: the lesser count of each element of [c1], the
    elements left with no count dropped. *)
Fixpoint counter_and (c1 c2 : list (A * nat)) : list (A * nat) :=
  match c1 with
  | [] => []
  | (elem, count) :: c1' =>
      let other_count := counter_get c2 elem in
      let newcount := if Nat.ltb count other_count then count
                      else other_count in
      if Nat.ltb 0 newcount then (elem, newcount) :: counter_and c1' c2
      else counter_and c1' c2
  end.

(** Counter.elements *)
Definition elements (c : list (A * nat)) : list A :=
  flat_map (fun item => repeat (fst item) (snd item)) c.

(** The distinct elements of a list, in the order in which they first
    occur. *)
Fixpoint first_occurrences (l : list A) : list A :=
  match l with
  | [] => []
  | x :: l' =>
      x :: filter (fun y => if eq_dec x y then false else true)
             (first_occurrences l')
  end.

Definition lists_common_elements (list_1 list_2 : list A) : list A :=
  let counter_1 := Counter list_1 in
  let counter_2 := Counter list_2 in
  let common := counter_and counter_1 counter_2 in
  elements common.

End CommonElements.

(** ** HW_1, task 4: merging two dictionaries *)

Section MergedDictionary.

Context {K V : Type} (eq_dec : forall x y : K, {x = y} + {x <> y}).

(** A dict: its items in insertion order, each key once. *)
Definition is_dict {W : Type} (d : list (K * W)) : Prop :=
  NoDup (map fst d).

(** d.get(key) *)
Fixpoint dict_get {W : Type} (d : list (K * W)) (key : K) : option W :=
  match d with
  | [] => None
  | (k, w) :: d' => if eq_dec key k then Some w else dict_get d' key
  end.

(** merged_dict[key].append(value) on a defaultdict(list) *)
Fixpoint append_value (key : K) (value : V) (m : list (K * list V))
  : list (K * list V) :=
  match m with
  | [] => [(key, [value])]
  | (k, vs) :: m' =>
      if eq_dec key k then (k, vs ++ [value]) :: m'
      else (k, vs) :: append_value key value m'
  end.

Definition merged_dictionary (dict_1 dict_2 : list (K * V))
  : list (K * list V) :=
  fold_left
    (fun merged_dict source_dict =>
       fold_left (fun m item => append_value (fst item) (snd item) m)
                 source_dict merged_dict)
    [dict_1; dict_2] [].

End MergedDictionary.

(** ** HW_1, task 6: the even numbers of a list *)

Definition even_only_check (list_of_numbers : list Z) : list Z :=
  fold_left
    (fun new_list element =>
       if element mod 2 =? 0 then new_list ++ [element] else new_list)
    list_of_numbers [].

(** * Properties *)

(** ** Dates *)

Lemma ltb_spec (a b : Date.t) :
  Date.ltb a b = true <->
  Date.year a < Date.year b
  \/ (Date.year a = Date.year b
      /\ (Date.month a < Date.month b
          \/ (Date.month a = Date.month b /\ Date.day a < Date.day b))).
Proof.
  unfold Date.ltb.
  rewrite !orb_true_iff, !andb_true_iff, !orb_true_iff, !andb_true_iff,
    !Z.ltb_lt, !Z.eqb_eq.
  tauto.
Qed.

Lemma ltb_false_spec (a b : Date.t) :
  Date.ltb a b = false <->
  Date.year b < Date.year a
  \/ (Date.year a = Date.year b
      /\ (Date.month b < Date.month a
          \/ (Date.month a = Date.month b /\ Date.day b <= Date.day a))).
Proof.
  rewrite <- not_true_iff_false, ltb_spec. lia.
Qed.

Lemma eqb_spec (a b : Date.t) : Date.eqb a b = true <-> a = b.
Proof.
  unfold Date.eqb. rewrite !andb_true_iff, !Z.eqb_eq.
  destruct a, b; cbn. split.
  - intros [[-> ->] ->]. reflexivity.
  - intros [= -> -> ->]. auto.
Qed.

(** Order facts on dates reduce to linear arithmetic on the fields. *)
Ltac by_fields :=
  unfold date_le; rewrite ?ltb_false_spec, ?ltb_spec; lia.

Lemma date_le_refl (a : Measurement) : date_le a a.
Proof. by_fields. Qed.

Lemma date_le_trans (a b c : Measurement) :
  date_le a b -> date_le b c -> date_le a c.
Proof. by_fields. Qed.

Lemma date_lt_le (a b : Measurement) :
  Date.ltb (date a) (date b) = true -> date_le a b.
Proof. by_fields. Qed.

Lemma ltb_irrefl (d : Date.t) : Date.ltb d d = false.
Proof. rewrite ltb_false_spec. lia. Qed.

Lemma date_le_antisym (a b : Measurement) :
  date_le a b -> date_le b a -> date a = date b.
Proof.
  unfold date_le. rewrite !ltb_false_spec.
  destruct (date a) as [ya ma da], (date b) as [yb mb db]; simpl.
  intros H1 H2. f_equal; lia.
Qed.

(** ** The sort *)

Lemma insert_perm (m : Measurement) (l : list Measurement) :
  Permutation (insert m l) (m :: l).
Proof.
  induction l as [|x l IH]; simpl.
  - reflexivity.
  - destruct (Date.ltb (date x) (date m)).
    + rewrite IH. apply perm_swap.
    + reflexivity.
Qed.

Lemma sorted_perm (l : list Measurement) : Permutation (sorted l) l.
Proof.
  induction l as [|m l IH]; simpl.
  - reflexivity.
  - rewrite insert_perm. now constructor.
Qed.

Lemma sorted_In (l : list Measurement) (x : Measurement) :
  In x (sorted l) <-> In x l.
Proof.
  split; apply Permutation_in;
    [apply sorted_perm | symmetry; apply sorted_perm].
Qed.

Lemma insert_ordered (m : Measurement) (l : list Measurement) :
  StronglySorted date_le l -> StronglySorted date_le (insert m l).
Proof.
  induction 1 as [|x l Hl IH Hx]; simpl.
  - repeat constructor.
  - destruct (Date.ltb (date x) (date m)) eqn:E.
    + constructor; [exact IH|].
      rewrite Forall_forall in *. intros z Hz.
      apply (Permutation_in _ (insert_perm m l)) in Hz.
      destruct Hz as [<-|Hz]; [now apply date_lt_le | now apply Hx].
    + constructor; [now constructor|].
      constructor; [exact E|].
      rewrite Forall_forall in *. intros z Hz.
      apply date_le_trans with x; [exact E | now apply Hx].
Qed.

Lemma sorted_ordered (l : list Measurement) : StronglySorted date_le (sorted l).
Proof.
  induction l as [|m l IH]; simpl.
  - constructor.
  - now apply insert_ordered.
Qed.

(** Stability: sorting commutes with taking a sub-collection. *)
Lemma filter_insert (p : Measurement -> bool) (m : Measurement)
    (l : list Measurement) :
  StronglySorted date_le l ->
  filter p (insert m l)
  = if p m then insert m (filter p l) else filter p l.
Proof.
  induction 1 as [|x l Hl IH Hx]; simpl.
  - now destruct (p m).
  - destruct (Date.ltb (date x) (date m)) eqn:E; simpl.
    + rewrite IH. destruct (p x), (p m); simpl; try reflexivity.
      now rewrite E.
    + destruct (p m) eqn:Pm; [|reflexivity].
      destruct (p x) eqn:Px; simpl.
      * now rewrite E.
      * destruct (filter p l) as [|z l'] eqn:F; [reflexivity|].
        assert (Hz : In z l).
        { apply (proj1 (filter_In p z l)). rewrite F. now left. }
        rewrite Forall_forall in Hx. specialize (Hx z Hz).
        simpl.
        assert (Ez : Date.ltb (date z) (date m) = false).
        { apply (date_le_trans m x z); assumption. }
        now rewrite Ez.
Qed.

Lemma filter_sorted (p : Measurement -> bool) (l : list Measurement) :
  filter p (sorted l) = sorted (filter p l).
Proof.
  induction l as [|m l IH]; simpl.
  - reflexivity.
  - rewrite filter_insert by apply sorted_ordered.
    rewrite IH. now destruct (p m).
Qed.

Lemma sorted_same_date (d : Date.t) (l : list Measurement) :
  (forall x, In x l -> date x = d) -> sorted l = l.
Proof.
  induction l as [|m l IH]; intros H; simpl; [reflexivity|].
  rewrite IH by (intros; apply H; now right).
  destruct l as [|y l]; [reflexivity|]. cbn [insert].
  rewrite (H m), (H y) by (cbn; tauto).
  now rewrite ltb_irrefl.
Qed.

(** Readings of one date come out of [sorted] in the order they went in. *)
Lemma sorted_stable (d : Date.t) (l : list Measurement) :
  filter (fun m => Date.eqb (date m) d) (sorted l)
  = filter (fun m => Date.eqb (date m) d) l.
Proof.
  rewrite filter_sorted. apply sorted_same_date with d.
  intros x Hx. apply filter_In in Hx. now apply eqb_spec.
Qed.

(** Two orderings of the same readings coincide when readings that share a
    date are equal. *)
Lemma ordered_unique (l1 l2 : list Measurement) :
  StronglySorted date_le l1 -> StronglySorted date_le l2 ->
  Permutation l1 l2 ->
  (forall a b, In a l1 -> In b l1 -> date a = date b -> a = b) ->
  l1 = l2.
Proof.
  intros S1. revert l2.
  induction S1 as [|a t1 St1 IH Ha]; intros l2 S2 P Inj.
  - apply Permutation_nil in P. now subst.
  - destruct l2 as [|b t2].
    + symmetry in P. now apply Permutation_nil in P.
    + assert (Eab : a = b).
      { inversion S2 as [|? ? St2 Hb]; subst.
        rewrite Forall_forall in Ha, Hb.
        assert (Ia : In a (b :: t2))
          by (apply (Permutation_in _ P); now left).
        assert (Ib : In b (a :: t1))
          by (apply (Permutation_in _ (Permutation_sym P)); now left).
        destruct Ia as [Ia|Ia]; [now symmetry|].
        destruct Ib as [Ib|Ib]; [assumption|].
        apply Inj; [now left | now right |].
        apply date_le_antisym; [now apply Ha | now apply Hb]. }
      subst b. f_equal.
      apply IH.
      * now inversion S2.
      * now apply Permutation_cons_inv in P.
      * intros x y Hx Hy. apply Inj; now right.
Qed.

(** ** The baseline search *)

Section Baseline.

Variable p : Measurement -> bool.

Lemma find_snoc (l : list Measurement) (x : Measurement) :
  find p (l ++ [x])
  = match find p l with
    | Some z => Some z
    | None => if p x then Some x else None
    end.
Proof.
  induction l as [|y l IH]; simpl.
  - reflexivity.
  - now destruct (p y).
Qed.

Lemma find_rev_cons (x : Measurement) (l : list Measurement) :
  find p (rev (x :: l))
  = match find p (rev l) with
    | Some z => Some z
    | None => if p x then Some x else None
    end.
Proof.
  simpl. apply find_snoc.
Qed.

Lemma find_rev_In (l : list Measurement) (b : Measurement) :
  find p (rev l) = Some b -> In b l /\ p b = true.
Proof.
  intros H. apply find_some in H. now rewrite <- in_rev in H.
Qed.

(** Inserting [x] into ordered readings: [x] becomes the last reading that
    satisfies [p] exactly when it satisfies [p] and is dated after the
    former one. *)
Lemma find_rev_insert (x : Measurement) (s : list Measurement) :
  StronglySorted date_le s ->
  find p (rev (insert x s))
  = match find p (rev s) with
    | Some b => if p x && Date.ltb (date b) (date x) then Some x else Some b
    | None => if p x then Some x else None
    end.
Proof.
  induction 1 as [|y s Hs IH Hy].
  - simpl. now destruct (p x).
  - cbn [insert]. destruct (Date.ltb (date y) (date x)) eqn:E.
    + rewrite !find_rev_cons, IH.
      destruct (find p (rev s)) as [b|].
      * now destruct (p x && Date.ltb (date b) (date x)).
      * destruct (p x), (p y); simpl; rewrite ?E; reflexivity.
    + rewrite (find_rev_cons x (y :: s)).
      destruct (find p (rev (y :: s))) as [b|] eqn:F; [|reflexivity].
      apply find_rev_In in F. destruct F as [Hb _].
      assert (Eb : Date.ltb (date b) (date x) = false).
      { destruct Hb as [<-|Hb]; [exact E|].
        rewrite Forall_forall in Hy.
        apply (date_le_trans x y b); [exact E | now apply Hy]. }
      now rewrite Eb, andb_false_r.
Qed.

(** Searching the sorted readings backwards finds the most recent reading
    that satisfies [p]. *)
Lemma find_rev_sorted (l : list Measurement) :
  find p (rev (sorted l)) = latest p l.
Proof.
  induction l as [|x l IH]; simpl.
  - reflexivity.
  - rewrite find_rev_insert by apply sorted_ordered. now rewrite IH.
Qed.

(** [latest] meets its description: nothing is found only when no reading
    satisfies [p]; the reading found satisfies [p] and no reading that
    satisfies [p] is dated later. *)
Lemma latest_none (l : list Measurement) :
  latest p l = None -> forall x, In x l -> p x = false.
Proof.
  induction l as [|z l IH]; simpl; intros L x Hx; [contradiction|].
  destruct (latest p l) as [c|].
  - now destruct (p z && Date.ltb (date c) (date z)).
  - destruct (p z) eqn:Pz; [discriminate|].
    destruct Hx as [<-|Hx]; [assumption | now apply IH].
Qed.

Lemma latest_all_false (l : list Measurement) :
  (forall x, In x l -> p x = false) -> latest p l = None.
Proof.
  induction l as [|x l IH]; intros H; simpl; [reflexivity|].
  rewrite IH by (intros; apply H; now right).
  now rewrite (H x) by now left.
Qed.

Lemma latest_some (l : list Measurement) (b : Measurement) :
  latest p l = Some b ->
  In b l /\ p b = true /\ forall x, In x l -> p x = true -> date_le x b.
Proof.
  revert b. induction l as [|y l IH]; simpl; intros b H.
  - discriminate.
  - destruct (latest p l) as [c|] eqn:L.
    + destruct (IH c eq_refl) as (Ic & Pc & Mc).
      destruct (p y) eqn:Py; simpl in H.
      * destruct (Date.ltb (date c) (date y)) eqn:E; injection H as <-.
        -- repeat split; [now left | assumption |].
           intros x [<-|Hx] Px; [apply date_le_refl|].
           apply date_le_trans with c; [now apply Mc | now apply date_lt_le].
        -- repeat split; [now right | assumption |].
           intros x [<-|Hx] Px; [exact E | now apply Mc].
      * injection H as <-.
        repeat split; [now right | assumption |].
        intros x [<-|Hx] Px; [congruence | now apply Mc].
    + destruct (p y) eqn:Py; [|discriminate].
      injection H as <-.
      repeat split; [now left | assumption |].
      intros x [<-|Hx] Px; [apply date_le_refl|].
      rewrite (latest_none l L x Hx) in Px. discriminate.
Qed.

(** Only the readings that satisfy [p] matter. *)
Lemma latest_filter (q : Measurement -> bool) (l : list Measurement) :
  (forall x, p x = true -> q x = true) ->
  latest p (filter q l) = latest p l.
Proof.
  intros H. induction l as [|x l IH]; simpl.
  - reflexivity.
  - destruct (q x) eqn:Q; simpl; rewrite IH.
    + reflexivity.
    + assert (Px : p x = false).
      { destruct (p x) eqn:P; [|reflexivity].
        apply H in P. congruence. }
      rewrite Px. simpl. now destruct (latest p l).
Qed.

Lemma latest_ext (q : Measurement -> bool) (l : list Measurement) :
  (forall x, In x l -> p x = q x) -> latest p l = latest q l.
Proof.
  induction l as [|x l IH]; intros H; simpl.
  - reflexivity.
  - rewrite IH by (intros; apply H; now right).
    now rewrite (H x) by now left.
Qed.

End Baseline.

Lemma prev_reading_sorted (l : list Measurement) (m : Measurement) :
  prev_reading (sorted l) m = latest_before (date m) l.
Proof.
  apply find_rev_sorted.
Qed.

(** ** The loop *)

Lemma sum_raises (e : exn) (ds : list (result Dec.t)) :
  fold_left (fun acc d => t <- acc ;; x <- d ;; Dec.add t x) ds (Raises e)
  = Raises e.
Proof.
  induction ds as [|d ds IH]; simpl; [reflexivity | exact IH].
Qed.

Lemma filter_all (p : Measurement -> bool) (l : list Measurement) :
  Forall (fun m => p m = true) (filter p l).
Proof.
  rewrite Forall_forall. intros x Hx. now apply filter_In in Hx.
Qed.

Section Loop.

Variables (ms : list Measurement) (year month : Z).

Let body := loop_body ms year month.

(** Readings of other months leave the loop variables alone. *)
Lemma for_each_filter (l : list Measurement) (st : Dec.t * option Dec.t) :
  for_each body l st = for_each body (filter (in_month year month) l) st.
Proof.
  subst body.
  revert st. induction l as [|m l IH]; intros [total prev]; simpl.
  - reflexivity.
  - destruct (in_month year month m) eqn:E; simpl; rewrite ?E.
    + destruct (Dec.sub _ _) as [d|e]; simpl; [|reflexivity].
      destruct (Dec.add total d) as [t|e]; simpl; [|reflexivity].
      apply IH.
    + simpl. apply IH.
Qed.

(** The first reading of the month looks its baseline up. *)
Lemma for_each_first (m : Measurement) (l : list Measurement)
    (total : Dec.t) :
  in_month year month m = true ->
  for_each body (m :: l) (total, None)
  = for_each body (m :: l) (total, Some (value_or_zero (prev_reading ms m))).
Proof.
  intros H. subst body. simpl. now rewrite H.
Qed.

(** Once [prev_value] is set, the loop adds up the successive differences. *)
Lemma for_each_deltas (l : list Measurement) (total prev : Dec.t) :
  Forall (fun m => in_month year month m = true) l ->
  (st <- for_each body l (total, Some prev) ;; Returns (fst st))
  = sum_from total (deltas prev l).
Proof.
  intros H. subst body. revert total prev.
  induction H as [|m l Hm Hl IH]; intros total prev.
  - reflexivity.
  - unfold sum_from in *. simpl. rewrite Hm.
    destruct (Dec.sub (value m) prev) as [d|e]; simpl.
    + destruct (Dec.add total d) as [t|e]; simpl.
      * apply IH.
      * symmetry. apply sum_raises.
    + symmetry. apply sum_raises.
Qed.

End Loop.

(** The method computes the sum of deltas of the specification. *)
Lemma consumption_sum_of_deltas (readings : list Measurement)
    (year month : Z) :
  consumption readings year month = sum_of_deltas readings year month.
Proof.
  unfold consumption, consumption_for_month, sum_of_deltas, month_readings.
  cbn [fst measurements].
  rewrite for_each_filter.
  pose proof (filter_all (in_month year month) (sorted readings)) as All.
  destruct (filter (in_month year month) (sorted readings)) as [|m l] eqn:F.
  - reflexivity.
  - rewrite for_each_first by now inversion All.
    rewrite prev_reading_sorted.
    now apply for_each_deltas.
Qed.

(** ** Decimal arithmetic, by example *)

Example add_keeps_least_exponent :
  Dec.add Dec.zero (D 300 (-1)) = Returns (D 300 (-1)).
Proof. reflexivity. Qed.

Example sub_of_equals_is_zero :
  Dec.sub (D 15 (-1)) (D 15 (-1)) = Returns (D 0 (-1)).
Proof. reflexivity. Qed.

Example add_rounds_half_even :
  Dec.add (D 9999999999999999999999999999 0) (D 5 (-1))
  = Returns (D 1000000000000000000000000000 1)
  /\ Dec.add (D 9999999999999999999999999998 0) (D 5 (-1))
     = Returns (D 9999999999999999999999999998 0).
Proof. split; reflexivity. Qed.

Example add_above_Emax_raises :
  Dec.add (D 9 999999) (D 9 999999) = Raises Overflow.
Proof. reflexivity. Qed.

Example sub_of_signaling_nan_raises :
  Dec.sub (Dec.NaN false true) Dec.zero = Raises InvalidOperation.
Proof. reflexivity. Qed.

Example sub_of_infinities_raises :
  Dec.sub (Dec.Infinity false) (Dec.Infinity false) = Raises InvalidOperation.
Proof. reflexivity. Qed.

(** ** Decimal arithmetic on the thousandths grid *)

Lemma ndigits_fuel_le (fuel : nat) (c k : Z) :
  1 <= k -> c < 10 ^ k -> Dec.ndigits_fuel fuel c <= k.
Proof.
  revert c k.
  induction fuel as [|fuel IH]; intros c k Hk Hc; cbn [Dec.ndigits_fuel].
  - exact Hk.
  - destruct (Z.ltb_spec c 10) as [Hlt|Hge]; [exact Hk|].
    assert (Hk2 : 2 <= k).
    { destruct (Z.eq_dec k 1) as [E|E]; [|lia].
      rewrite E in Hc. change (10 ^ 1) with 10 in Hc. lia. }
    assert (Hq : c / 10 < 10 ^ (k - 1)).
    { apply Z.div_lt_upper_bound; [lia|].
      rewrite <- Z.pow_succ_r by lia.
      now replace (Z.succ (k - 1)) with k by lia. }
    assert (Hk1 : 1 <= k - 1) by lia.
    specialize (IH (c / 10) (k - 1) Hk1 Hq). lia.
Qed.

Lemma ndigits_fuel_pos (fuel : nat) (c : Z) : 1 <= Dec.ndigits_fuel fuel c.
Proof.
  revert c. induction fuel as [|fuel IH]; intros c; cbn [Dec.ndigits_fuel].
  - lia.
  - destruct (c <? 10); [lia|]. specialize (IH (c / 10)). lia.
Qed.

Lemma ndigits_fuel_spec (fuel : nat) (c : Z) :
  0 < c < 10 * 2 ^ Z.of_nat fuel ->
  10 ^ (Dec.ndigits_fuel fuel c - 1) <= c < 10 ^ Dec.ndigits_fuel fuel c.
Proof.
  revert c. induction fuel as [|fuel IH]; intros c Hc; cbn [Dec.ndigits_fuel].
  - change (10 ^ (1 - 1)) with 1. change (10 ^ 1) with 10.
    change (2 ^ Z.of_nat 0) with 1 in Hc. lia.
  - destruct (Z.ltb_spec c 10) as [Hlt|Hge].
    + change (10 ^ (1 - 1)) with 1. change (10 ^ 1) with 10. lia.
    + rewrite Nat2Z.inj_succ, Z.pow_succ_r in Hc by lia.
      pose proof (Z.pow_pos_nonneg 2 (Z.of_nat fuel)) as P.
      assert (Hq : 0 < c / 10 < 10 * 2 ^ Z.of_nat fuel).
      { split.
        - apply Z.div_str_pos. lia.
        - apply Z.div_lt_upper_bound; lia. }
      specialize (IH _ Hq).
      pose proof (ndigits_fuel_pos fuel (c / 10)) as N.
      set (n := Dec.ndigits_fuel fuel (c / 10)) in *.
      assert (E3 : 10 ^ n = 10 * 10 ^ (n - 1)).
      { rewrite <- Z.pow_succ_r by lia. f_equal. lia. }
      assert (E2 : 10 ^ (1 + n) = 10 * 10 ^ n).
      { rewrite <- Z.pow_succ_r by lia. f_equal. lia. }
      replace (1 + n - 1) with n by lia.
      rewrite E2. rewrite E3 in IH |- *.
      pose proof (Z.mul_div_le c 10 ltac:(lia)).
      pose proof (Z.mod_pos_bound c 10 ltac:(lia)).
      pose proof (Z.div_mod c 10 ltac:(lia)). lia.
Qed.

(** [ndigits] counts the decimal digits of a positive integer. *)
Lemma ndigits_spec (c : Z) :
  0 < c -> 10 ^ (Dec.ndigits c - 1) <= c < 10 ^ Dec.ndigits c.
Proof.
  intros Hc. apply ndigits_fuel_spec.
  pose proof (Z.log2_spec c Hc) as L.
  pose proof (Z.log2_nonneg c) as Ln.
  rewrite Z2Nat.id by exact Ln.
  rewrite Z.pow_succ_r in L by exact Ln. lia.
Qed.

(** A coefficient of at most 28 digits with an exponent in range is kept as
    it is. *)
Lemma fix_exact (s : bool) (c e : Z) :
  0 < c < 10 ^ 28 -> -3 <= e <= 25 ->
  Dec.fix_ s c e = Returns (Dec.Finite s (Z.to_N c) e).
Proof.
  intros Hc He. unfold Dec.fix_.
  destruct (Z.eqb_spec c 0) as [->|_]; [lia|].
  assert (Hd : Dec.ndigits c <= 28)
    by (apply ndigits_fuel_le; [lia | apply Hc]).
  unfold Dec.Etop, Dec.Etiny, Dec.Emax, Dec.Emin, Dec.prec.
  destruct (Z.ltb_spec (999999 - 28 + 1) (Dec.ndigits c + e - 28)); [lia|].
  destruct (Z.ltb_spec e (Z.max (Dec.ndigits c + e - 28) (-999999 - 28 + 1)));
    [lia | reflexivity].
Qed.

Lemma signed_abs (z : Z) : Dec.signed (z <? 0) (Z.to_N (Z.abs z)) = z.
Proof.
  unfold Dec.signed. destruct (Z.ltb_spec z 0); lia.
Qed.

Lemma pow10_pos (n : Z) : 0 <= n -> 1 <= 10 ^ n.
Proof.
  intros H. pose proof (Z.pow_pos_nonneg 10 n). lia.
Qed.

(** Within the precision, adding values of the grid is exact. *)
Lemma add_exact (a b : Dec.t) :
  Dec.on_grid a = true -> Dec.on_grid b = true ->
  Z.abs (Dec.thousandths a + Dec.thousandths b) < 10 ^ 28 ->
  exists d, Dec.add a b = Returns d
            /\ Dec.on_grid d = true
            /\ Dec.thousandths d = Dec.thousandths a + Dec.thousandths b.
Proof.
  destruct a as [s1 c1 e1| |], b as [s2 c2 e2| |]; try discriminate.
  cbn [Dec.on_grid Dec.thousandths]. rewrite !Z.leb_le. intros G1 G2 B.
  unfold Dec.add; cbn [Dec.check_nans].
  set (e := Z.min e1 e2).
  set (z := Dec.signed s1 c1 * 10 ^ (e1 - e) + Dec.signed s2 c2 * 10 ^ (e2 - e)).
  assert (Ge : -3 <= e) by (unfold e; lia).
  assert (Hz : z * 10 ^ (e + 3)
               = Dec.signed s1 c1 * 10 ^ (e1 + 3)
                 + Dec.signed s2 c2 * 10 ^ (e2 + 3)).
  { unfold z.
    replace (e1 + 3) with ((e1 - e) + (e + 3)) by lia.
    replace (e2 + 3) with ((e2 - e) + (e + 3)) by lia.
    rewrite (Z.pow_add_r 10 (e1 - e) (e + 3)),
      (Z.pow_add_r 10 (e2 - e) (e + 3)) by (unfold e; lia).
    ring. }
  rewrite <- Hz in B |- *.
  pose proof (pow10_pos (e + 3)) as P.
  destruct (Z.eqb_spec z 0) as [Z0|Zn].
  - rewrite Z0. cbn [Z.abs]. unfold Dec.fix_. cbn [Z.eqb].
    eexists; split; [reflexivity|].
    cbn [Dec.on_grid Dec.thousandths].
    split.
    + apply Z.leb_le. unfold Dec.Etiny, Dec.Emax, Dec.Emin, Dec.prec. lia.
    + unfold Dec.signed. now destruct (s1 && s2).
  - specialize (P ltac:(lia)).
    rewrite Z.abs_mul, (Z.abs_eq (10 ^ (e + 3))) in B by lia.
    assert (Hz0 : 1 <= Z.abs z) by lia.
    assert (Hc : 0 < Z.abs z < 10 ^ 28) by nia.
    assert (He : e + 3 < 28).
    { apply (Z.pow_lt_mono_r_iff 10); [lia | lia | nia]. }
    rewrite fix_exact by lia.
    eexists; split; [reflexivity|].
    cbn [Dec.on_grid Dec.thousandths].
    split; [now apply Z.leb_le|].
    now rewrite signed_abs.
Qed.

Lemma sub_exact (a b : Dec.t) :
  Dec.on_grid a = true -> Dec.on_grid b = true ->
  Z.abs (Dec.thousandths a - Dec.thousandths b) < 10 ^ 28 ->
  exists d, Dec.sub a b = Returns d
            /\ Dec.on_grid d = true
            /\ Dec.thousandths d = Dec.thousandths a - Dec.thousandths b.
Proof.
  intros Ga Gb B.
  assert (Hn : Dec.thousandths (Dec.copy_negate b) = - Dec.thousandths b).
  { destruct b as [s c e| |]; try discriminate.
    cbn [Dec.copy_negate Dec.thousandths]. unfold Dec.signed.
    destruct s; cbn [negb]; ring. }
  assert (Gn : Dec.on_grid (Dec.copy_negate b) = true)
    by (destruct b; [exact Gb | discriminate | discriminate]).
  destruct (add_exact a (Dec.copy_negate b) Ga Gn) as (d & Hd & Gd & Td).
  { rewrite Hn. now replace (Dec.thousandths a + - Dec.thousandths b)
      with (Dec.thousandths a - Dec.thousandths b) by ring. }
  exists d. split; [|split; [exact Gd | rewrite Td, Hn; ring]].
  unfold Dec.sub.
  destruct a as [? ? ?| |], b as [? ? ?| |]; try discriminate. exact Hd.
Qed.

Lemma fits_on_grid (a : Dec.t) :
  Dec.fits_numeric_12_3 a = true ->
  Dec.on_grid a = true /\ Z.abs (Dec.thousandths a) < 10 ^ 12.
Proof.
  unfold Dec.fits_numeric_12_3.
  now rewrite andb_true_iff, Z.ltb_lt.
Qed.

Lemma last_cons {A : Type} (x d : A) (l : list A) :
  last (x :: l) d = last l x.
Proof.
  revert x d. induction l as [|y l IH]; intros x d.
  - reflexivity.
  - change (last (x :: y :: l) d) with (last (y :: l) d).
    now rewrite !IH.
Qed.

(** Over the integers the differences telescope. *)
Lemma exact_deltas_last (prev : Z) (vs : list Z) :
  exact_deltas prev vs = last vs prev - prev.
Proof.
  revert prev. induction vs as [|v vs IH]; intros prev.
  - simpl. ring.
  - cbn [exact_deltas]. rewrite IH, last_cons. ring.
Qed.

(** On column values the Decimal sum of the deltas is the exact sum: no
    operation raises and none rounds. *)
Lemma sum_exact (l : list Measurement) (total prev : Dec.t) (k : Z) :
  Forall (fun m => Dec.fits_numeric_12_3 (value m) = true) l ->
  Dec.fits_numeric_12_3 prev = true ->
  Dec.on_grid total = true ->
  Dec.thousandths total = Dec.thousandths prev + k ->
  Z.abs k <= 10 ^ 12 ->
  exists d,
    sum_from total (deltas prev l) = Returns d
    /\ Dec.on_grid d = true
    /\ Dec.thousandths d
       = Dec.thousandths total
         + exact_deltas (Dec.thousandths prev)
             (map (fun m => Dec.thousandths (value m)) l).
Proof.
  intros Hl. revert total prev.
  induction Hl as [|m l Hm Hl IH]; intros total prev Hp Gt Tt Hk.
  - exists total. cbn. repeat split; [assumption | ring].
  - apply fits_on_grid in Hp. destruct Hp as [Gp Bp].
    pose proof (fits_on_grid _ Hm) as [Gm Bm].
    change (10 ^ 12) with 1000000000000 in *.
    destruct (sub_exact (value m) prev Gm Gp) as (d1 & Hd1 & Gd1 & Td1).
    { change (10 ^ 28) with 10000000000000000000000000000. lia. }
    destruct (add_exact total d1 Gt Gd1) as (t' & Ht' & Gt' & Tt').
    { change (10 ^ 28) with 10000000000000000000000000000. lia. }
    destruct (IH t' (value m) Hm Gt') as (d & Hd & Gd & Td); [lia | lia |].
    exists d. split; [|split; [exact Gd|]].
    + unfold sum_from in *. cbn [deltas fold_left].
      rewrite Hd1. cbn [bind]. rewrite Ht'. exact Hd.
    + cbn [map exact_deltas]. lia.
Qed.

Lemma numeric_ok_forall (readings : list Measurement) :
  numeric_ok readings = true ->
  forall m, In m readings -> Dec.fits_numeric_12_3 (value m) = true.
Proof.
  unfold numeric_ok. now rewrite forallb_forall.
Qed.

Lemma month_readings_In (readings : list Measurement) (year month : Z)
    (m : Measurement) :
  In m (month_readings readings year month)
  <-> In m readings /\ in_month year month m = true.
Proof.
  unfold month_readings. now rewrite filter_In, sorted_In.
Qed.

Lemma month_readings_ordered (readings : list Measurement) (year month : Z) :
  StronglySorted date_le (month_readings readings year month).
Proof.
  unfold month_readings. rewrite filter_sorted. apply sorted_ordered.
Qed.

Lemma baseline_fits (p : Measurement -> bool) (readings : list Measurement) :
  numeric_ok readings = true ->
  Dec.fits_numeric_12_3 (value_or_zero (latest p readings)) = true.
Proof.
  intros H. destruct (latest p readings) as [b|] eqn:L; [|reflexivity].
  apply latest_some in L. now apply (numeric_ok_forall _ H).
Qed.

(** The method on column values: it returns, and what it returns is the
    exact sum of the deltas. *)
Lemma consumption_exact (readings : list Measurement) (year month : Z) :
  numeric_ok readings = true ->
  exists d,
    consumption readings year month = Returns d
    /\ Dec.on_grid d = true
    /\ Dec.thousandths d = exact_sum_of_deltas readings year month.
Proof.
  intros H. rewrite consumption_sum_of_deltas.
  unfold sum_of_deltas, exact_sum_of_deltas.
  pose proof (month_readings_In readings year month) as In_month.
  destruct (month_readings readings year month) as [|m l].
  - exists Dec.zero. now repeat split.
  - set (c := value_or_zero (latest_before (date m) readings)).
    assert (Hc : Dec.fits_numeric_12_3 c = true)
      by now apply baseline_fits.
    destruct (sum_exact (m :: l) Dec.zero c (- Dec.thousandths c))
      as (d & Hd & Gd & Td).
    + rewrite Forall_forall. intros x Hx.
      apply (numeric_ok_forall _ H). now apply In_month.
    + exact Hc.
    + reflexivity.
    + cbn [Dec.zero Dec.thousandths Dec.signed]. lia.
    + apply fits_on_grid in Hc.
      change (10 ^ 12) with 1000000000000 in *. lia.
    + exists d. repeat split; [exact Hd | exact Gd |].
      rewrite Td. cbn [Dec.zero Dec.thousandths Dec.signed]. lia.
Qed.

(** ** The baseline and the month *)

Lemma in_month_spec (year month : Z) (m : Measurement) :
  in_month year month m = true
  <-> Date.year (date m) = year /\ Date.month (date m) = month.
Proof.
  unfold in_month. now rewrite andb_true_iff, !Z.eqb_eq.
Qed.

Lemma before_month_spec (year month : Z) (m : Measurement) :
  before_month year month m = true
  <-> Date.year (date m) < year
      \/ (Date.year (date m) = year /\ Date.month (date m) < month).
Proof.
  unfold before_month.
  now rewrite orb_true_iff, andb_true_iff, !Z.ltb_lt, Z.eqb_eq.
Qed.

Lemma after_month_spec (year month : Z) (m : Measurement) :
  after_month year month m = true
  <-> year < Date.year (date m)
      \/ (Date.year (date m) = year /\ month < Date.month (date m)).
Proof.
  unfold after_month.
  now rewrite orb_true_iff, andb_true_iff, !Z.ltb_lt, Z.eqb_eq.
Qed.

(** The readings dated before the first reading of the month are those of
    earlier months. *)
Lemma before_first_reading (readings : list Measurement) (year month : Z)
    (first : Measurement) (rest : list Measurement) (x : Measurement) :
  month_readings readings year month = first :: rest ->
  In x readings ->
  Date.ltb (date x) (date first) = before_month year month x.
Proof.
  intros M Hx.
  assert (F : in_month year month first = true).
  { apply (month_readings_In readings). rewrite M. now left. }
  assert (O : in_month year month x = true -> date_le first x).
  { intros Ix.
    assert (Hin : In x (first :: rest))
      by (rewrite <- M; now apply month_readings_In).
    pose proof (month_readings_ordered readings year month) as S.
    rewrite M in S. inversion S as [|? ? _ Hf]; subst.
    destruct Hin as [<-|Hin].
    - apply date_le_refl.
    - rewrite Forall_forall in Hf. now apply Hf. }
  apply in_month_spec in F. unfold date_le in O.
  rewrite ltb_false_spec, in_month_spec in O.
  apply eq_true_iff_eq. rewrite ltb_spec, before_month_spec. lia.
Qed.

Lemma baseline_before_month (readings : list Measurement) (year month : Z)
    (first : Measurement) (rest : list Measurement) :
  month_readings readings year month = first :: rest ->
  latest_before (date first) readings
  = latest (before_month year month) readings.
Proof.
  intros M. apply latest_ext. intros x.
  now apply before_first_reading with (rest := rest).
Qed.

(** For calendar dates, an earlier month means before the first day of the
    target month. *)
Lemma before_month_first_day (year month : Z) (m : Measurement) :
  Date.valid (date m) = true ->
  before_month year month m = Date.ltb (date m) (first_day year month).
Proof.
  unfold Date.valid. rewrite !andb_true_iff, !Z.leb_le. intros V.
  apply eq_true_iff_eq. rewrite ltb_spec, before_month_spec.
  unfold first_day; cbn [Date.year Date.month Date.day]. lia.
Qed.

Lemma baseline_month_start (readings : list Measurement) (year month : Z) :
  dates_valid readings = true ->
  latest (before_month year month) readings
  = latest_before (first_day year month) readings.
Proof.
  unfold dates_valid. rewrite forallb_forall. intros V.
  apply latest_ext. intros x Hx. apply before_month_first_day. now apply V.
Qed.

Lemma last_In_cons {A : Type} (x : A) (l : list A) : In (last l x) (x :: l).
Proof.
  revert x. induction l as [|y l IH]; intros x.
  - now left.
  - rewrite last_cons. right. apply IH.
Qed.

Lemma last_of_map {A B : Type} (f : A -> B) (x : A) (l : list A) :
  last (map f l) (f x) = f (last l x).
Proof.
  revert x. induction l as [|y l IH]; intros x.
  - reflexivity.
  - cbn [map]. now rewrite !last_cons.
Qed.

(** In date order the last reading is dated latest. *)
Lemma ordered_last (x : Measurement) (l : list Measurement) :
  StronglySorted date_le (x :: l) ->
  forall z, In z (x :: l) -> date_le z (last l x).
Proof.
  revert x. induction l as [|y l IH]; intros x S z Hz.
  - destruct Hz as [<-|[]]. apply date_le_refl.
  - rewrite last_cons. inversion S as [|? ? S' Hx]; subst.
    destruct Hz as [<-|Hz].
    + rewrite Forall_forall in Hx. apply Hx. apply last_In_cons.
    + now apply IH.
Qed.

Lemma NoDup_dates (l : list Measurement) (a b : Measurement) :
  NoDup (map date l) -> In a l -> In b l -> date a = date b -> a = b.
Proof.
  induction l as [|x l IH]; intros N Ha Hb E; [contradiction|].
  cbn [map] in N. inversion N as [|? ? Nx Nl]; subst.
  destruct Ha as [<-|Ha], Hb as [<-|Hb].
  - reflexivity.
  - exfalso. apply Nx. rewrite E. now apply in_map.
  - exfalso. apply Nx. rewrite <- E. now apply in_map.
  - now apply IH.
Qed.


Lemma carry_in_exists (readings : list Measurement) (year month : Z) :
  NoDup (map date readings) ->
  is_carry_in readings year month (carry_in readings year month).
Proof.
  intros U. unfold carry_in.
  destruct (latest (before_month year month) readings) as [b|] eqn:L.
  - left. exists b. apply latest_some in L. destruct L as (Hb & Pb & Mb).
    repeat split; try assumption.
    intros m Hm E. f_equal. now apply (NoDup_dates readings).
  - right. split; [|reflexivity]. now apply latest_none.
Qed.

(** The method reads its readings through [sorted] only. *)
Lemma consumption_sorted (l l' : list Measurement) (year month : Z) :
  sorted l = sorted l' ->
  consumption l year month = consumption l' year month.
Proof.
  unfold consumption, consumption_for_month. cbn [fst measurements].
  now intros ->.
Qed.

Lemma in_month_up_to (year month : Z) (m : Measurement) :
  in_month year month m = true -> up_to_month year month m = true.
Proof.
  unfold up_to_month. rewrite in_month_spec, negb_true_iff.
  rewrite <- not_true_iff_false, after_month_spec. lia.
Qed.

Lemma filter_filter_imp (p q : Measurement -> bool) (l : list Measurement) :
  (forall x, p x = true -> q x = true) ->
  filter p (filter q l) = filter p l.
Proof.
  intros H. induction l as [|x l IH]; simpl; [reflexivity|].
  destruct (q x) eqn:Q; simpl; rewrite IH; [reflexivity|].
  destruct (p x) eqn:P; [|reflexivity].
  apply H in P. congruence.
Qed.

(** Dropping the readings of later months changes neither the month's
    readings nor the baseline, hence not the result. *)
Lemma consumption_up_to_month (readings : list Measurement) (year month : Z) :
  consumption (filter (up_to_month year month) readings) year month
  = consumption readings year month.
Proof.
  rewrite !consumption_sum_of_deltas. unfold sum_of_deltas.
  assert (M : month_readings (filter (up_to_month year month) readings)
                year month
              = month_readings readings year month).
  { unfold month_readings. rewrite !filter_sorted. f_equal.
    apply filter_filter_imp. apply in_month_up_to. }
  rewrite M.
  destruct (month_readings readings year month) as [|first rest] eqn:F;
    [reflexivity|].
  unfold latest_before. rewrite latest_filter; [reflexivity|].
  intros x Hx.
  assert (I : in_month year month first = true).
  { apply (month_readings_In readings). rewrite F. now left. }
  unfold up_to_month. rewrite negb_true_iff, <- not_true_iff_false.
  rewrite after_month_spec. apply in_month_spec in I.
  apply ltb_spec in Hx. lia.
Qed.

(** * The claims *)

(** C1. The method returns the sum, over the month's readings in ascending
    date order, of each value minus the previous one, the first being taken
    against the value of the latest reading dated strictly before it (zero
    when there is none).  On the docstring's readings and February 2025 the
    result is Decimal 60.0. *)
Theorem consumption_is_sum_of_deltas :
  (forall readings year month,
      consumption readings year month = sum_of_deltas readings year month)
  /\ consumption docstring_readings 2025 2 = Returns (D 600 (-1)).
Proof.
  split.
  - apply consumption_sum_of_deltas.
  - reflexivity.
Qed.

(** C2. When some reading is dated in the target month, the baseline the
    method looks up (latest reading dated before the first reading of the
    month) is the most recent reading dated before the first day of the
    month, the result is the sum of deltas taken from that baseline, and the
    carry-in value is zero when there is no such reading. *)
Theorem baseline_is_latest_before_month_start :
  forall readings year month first rest,
    dates_valid readings = true ->
    month_readings readings year month = first :: rest ->
    prev_reading (sorted readings) first
    = latest_before (first_day year month) readings
    /\ consumption readings year month
       = sum_from Dec.zero
           (deltas
              (value_or_zero (latest_before (first_day year month) readings))
              (first :: rest))
    /\ (latest_before (first_day year month) readings = None ->
        value_or_zero (prev_reading (sorted readings) first) = Dec.zero).
Proof.
  intros readings year month first rest V M.
  assert (B : prev_reading (sorted readings) first
              = latest_before (first_day year month) readings).
  { rewrite prev_reading_sorted, (baseline_before_month _ _ _ _ _ M).
    now apply baseline_month_start. }
  repeat split.
  - exact B.
  - rewrite consumption_sum_of_deltas. unfold sum_of_deltas. rewrite M.
    now rewrite <- B, prev_reading_sorted.
  - intros N. now rewrite B, N.
Qed.

Lemma baseline_is_latest_before_month_start_witness :
  prev_reading (sorted docstring_readings) (reading 2025 2 1 (D 1500 (-1)))
  = Some (reading 2025 1 1 (D 1200 (-1)))
  /\ latest_before (first_day 2025 2) docstring_readings
     = Some (reading 2025 1 1 (D 1200 (-1))).
Proof.
  destruct (baseline_is_latest_before_month_start docstring_readings 2025 2
              (reading 2025 2 1 (D 1500 (-1)))
              [reading 2025 2 20 (D 1800 (-1))]
              eq_refl eq_refl) as (B & _ & _).
  split; [exact B | reflexivity].
Defined.

(** C3 as stated fails: two readings of the same day give 20 in the order
    (10, 20) and 10 in the order (20, 10). *)
Lemma shuffle_changes_result_on_shared_date :
  Permutation same_day_readings (rev same_day_readings)
  /\ consumption same_day_readings 2025 2 = Returns (D 20 0)
  /\ consumption (rev same_day_readings) 2025 2 = Returns (D 10 0)
  /\ ~ (forall readings readings' year month,
          Permutation readings readings' ->
          consumption readings year month
          = consumption readings' year month).
Proof.
  repeat split.
  - apply Permutation_rev.
  - intros H.
    specialize (H same_day_readings (rev same_day_readings) 2025 2
                  (Permutation_rev _)).
    discriminate H.
Qed.

(** C3, amended. When readings that share a date also share their value (in
    particular when the dates are pairwise distinct), shuffling the
    collection does not change the result. *)
Theorem shuffle_invariant_when_dates_decide_values :
  forall readings readings' year month,
    Permutation readings readings' ->
    (forall a b, In a readings -> In b readings ->
                 date a = date b -> value a = value b) ->
    consumption readings year month = consumption readings' year month.
Proof.
  intros readings readings' year month P Inj.
  apply consumption_sorted.
  apply ordered_unique; try apply sorted_ordered.
  - now rewrite !sorted_perm.
  - intros [da va] [db vb] Ha Hb E.
    apply -> sorted_In in Ha. apply -> sorted_In in Hb.
    cbn in E. subst db.
    f_equal. apply (Inj _ _ Ha Hb eq_refl).
Qed.

Lemma shuffle_invariant_when_dates_decide_values_witness :
  consumption docstring_readings 2025 2
  = consumption (rev docstring_readings) 2025 2.
Proof.
  apply shuffle_invariant_when_dates_decide_values.
  - apply Permutation_rev.
  - intros a b Ha Hb E. cbn in Ha, Hb.
    destruct Ha as [<-|[<-|[<-|[]]]], Hb as [<-|[<-|[<-|[]]]];
      first [reflexivity | discriminate E].
Defined.

Lemma filter_none (p : Measurement -> bool) (l : list Measurement) :
  (forall x, In x l -> p x = false) -> filter p l = [].
Proof.
  induction l as [|x l IH]; intros H; simpl; [reflexivity|].
  rewrite (H x) by now left. apply IH. intros; apply H; now right.
Qed.

Lemma no_month_readings (readings : list Measurement) (year month : Z) :
  (forall m, In m readings -> in_month year month m = false) ->
  consumption readings year month = Returns Dec.zero.
Proof.
  intros H. rewrite consumption_sum_of_deltas.
  unfold sum_of_deltas, month_readings.
  now rewrite filter_sorted, filter_none.
Qed.

(** C4. When no reading is dated in the target month the method returns
    Decimal 0: so for the empty collection, and for a month number outside
    1..12, which no calendar date carries.  A month whose readings cancel
    returns the same Decimal 0. *)
Theorem no_reading_in_month_gives_zero :
  (forall readings year month,
      (forall m, In m readings -> in_month year month m = false) ->
      consumption readings year month = Returns Dec.zero)
  /\ (forall year month, consumption [] year month = Returns Dec.zero)
  /\ (forall readings year month,
         dates_valid readings = true ->
         month < 1 \/ 12 < month ->
         consumption readings year month = Returns Dec.zero)
  /\ consumption [reading 2025 1 1 (D 5 0); reading 2025 2 1 (D 5 0)] 2025 2
     = Returns Dec.zero.
Proof.
  repeat split.
  - apply no_month_readings.
  - intros readings year month V R. apply no_month_readings.
    intros m Hm. unfold dates_valid in V. rewrite forallb_forall in V.
    specialize (V m Hm). unfold Date.valid in V.
    rewrite !andb_true_iff, !Z.leb_le in V.
    apply not_true_iff_false. rewrite in_month_spec. lia.
Qed.

Lemma no_reading_in_month_gives_zero_witness :
  consumption docstring_readings 2025 3 = Returns Dec.zero
  /\ consumption docstring_readings 2025 13 = Returns Dec.zero.
Proof.
  destruct no_reading_in_month_gives_zero as (A & _ & B & _).
  split.
  - apply A. intros m Hm. cbn in Hm.
    destruct Hm as [<-|[<-|[<-|[]]]]; reflexivity.
  - apply B; [reflexivity | lia].
Defined.



(** C6. Readings of later months never affect the result: two collections
    that agree once those readings are left out give the same result. *)
Theorem later_readings_ignored :
  forall readings readings' year month,
    filter (up_to_month year month) readings
    = filter (up_to_month year month) readings' ->
    consumption readings year month = consumption readings' year month.
Proof.
  intros readings readings' year month H.
  rewrite <- (consumption_up_to_month readings),
          <- (consumption_up_to_month readings').
  now rewrite H.
Qed.

Lemma later_readings_ignored_witness :
  consumption [reading 2025 2 1 (D 1500 (-1)); reading 2025 3 1 (D 9990 (-1))]
    2025 2
  = consumption [reading 2026 1 1 (D 7 0); reading 2025 2 1 (D 1500 (-1))]
      2025 2.
Proof.
  apply later_readings_ignored. reflexivity.
Defined.

(** * The table, the relationship and the other methods *)

(** ** ORDER BY date DESC *)

Section OrderByFacts.

Context {A : Type} (key : A -> Date.t).

Lemma insert_desc_perm (r : A) (l : list A) :
  Permutation (insert_desc key r l) (r :: l).
Proof.
  induction l as [|x l IH]; simpl.
  - reflexivity.
  - destruct (Date.ltb (key r) (key x)).
    + rewrite IH. apply perm_swap.
    + reflexivity.
Qed.

Lemma order_by_desc_perm (l : list A) : Permutation (order_by_desc key l) l.
Proof.
  induction l as [|r l IH]; simpl.
  - reflexivity.
  - rewrite insert_desc_perm. now constructor.
Qed.

(** The row that comes first: the new row, unless the former first row is
    dated later. *)
Lemma hd_insert_desc (r : A) (l : list A) :
  hd_error (insert_desc key r l)
  = match hd_error l with
    | None => Some r
    | Some b => if Date.ltb (key r) (key b) then Some b else Some r
    end.
Proof.
  destruct l as [|x l]; simpl; [reflexivity|].
  now destruct (Date.ltb (key r) (key x)).
Qed.

Lemma hd_order_by_desc_nil (l : list A) :
  hd_error (order_by_desc key l) = None <-> l = [].
Proof.
  split; [|now intros ->].
  destruct l as [|r l]; [reflexivity|]. simpl.
  rewrite hd_insert_desc.
  destruct (hd_error (order_by_desc key l)) as [b|]; [|discriminate].
  now destruct (Date.ltb (key r) (key b)).
Qed.

(** The first row is a row of the list, and none is dated later. *)
Lemma hd_order_by_desc_max (l : list A) (b : A) :
  hd_error (order_by_desc key l) = Some b ->
  In b l /\ forall x, In x l -> Date.ltb (key b) (key x) = false.
Proof.
  revert b. induction l as [|r l IH]; simpl; intros b H; [discriminate|].
  rewrite hd_insert_desc in H.
  destruct (hd_error (order_by_desc key l)) as [c|] eqn:E.
  - destruct (IH c eq_refl) as [Ic Mc].
    destruct (Date.ltb (key r) (key c)) eqn:L; injection H as <-.
    + split; [now right|].
      intros x [<-|Hx]; [|now apply Mc].
      apply ltb_spec in L. apply ltb_false_spec. lia.
    + split; [now left|].
      intros x [<-|Hx]; [apply ltb_irrefl|].
      specialize (Mc x Hx).
      rewrite ltb_false_spec in *. lia.
  - injection H as <-. apply hd_order_by_desc_nil in E. subst l.
    split; [now left|].
    intros x [<-|[]]. apply ltb_irrefl.
Qed.

End OrderByFacts.

(** ** The query of consumption_from_previous *)

Lemma earlier_of_service_spec (self r : MeasurementRow) :
  earlier_of_service self r = true
  <-> service_id r = service_id self
      /\ Date.ltb (date (measurement r)) (date (measurement self)) = true.
Proof.
  unfold earlier_of_service. now rewrite andb_true_iff, Z.eqb_eq.
Qed.

Lemma previous_row_none (table : list MeasurementRow)
    (self : MeasurementRow) :
  previous_row table self = None
  <-> forall r, In r table -> earlier_of_service self r = false.
Proof.
  unfold previous_row. rewrite hd_order_by_desc_nil. split.
  - intros F r Hr. destruct (earlier_of_service self r) eqn:E; [|reflexivity].
    assert (In r (filter (earlier_of_service self) table))
      by now apply filter_In.
    rewrite F in H. contradiction.
  - intros H. induction table as [|x t IH]; [reflexivity|]. simpl.
    rewrite (H x) by now left. apply IH. intros; apply H; now right.
Qed.

Lemma previous_row_some (table : list MeasurementRow)
    (self prev : MeasurementRow) :
  previous_row table self = Some prev ->
  In prev table
  /\ earlier_of_service self prev = true
  /\ forall r, In r table -> earlier_of_service self r = true ->
               date_le (measurement r) (measurement prev).
Proof.
  unfold previous_row. intros H.
  apply hd_order_by_desc_max in H. destruct H as [Hp Mp].
  apply filter_In in Hp. destruct Hp as [Hp Ep].
  repeat split; try assumption.
  intros r Hr Er. apply Mp. now apply filter_In.
Qed.

Lemma consumption_from_previous_none (table : list MeasurementRow)
    (self : MeasurementRow) :
  consumption_from_previous table self = Returns None
  <-> previous_row table self = None.
Proof.
  unfold consumption_from_previous.
  destruct (previous_row table self) as [prev|]; [|tauto].
  split; [|discriminate].
  now destruct (Dec.sub _ _).
Qed.

(** X1. consumption_from_previous returns None exactly when the table holds
    no row of the same service dated strictly before the measurement. *)
Theorem from_previous_none_iff :
  forall table self,
    consumption_from_previous table self = Returns None
    <-> (forall r, In r table -> service_id r = service_id self ->
                   Date.ltb (date (measurement r)) (date (measurement self))
                   = false).
Proof.
  intros table self.
  rewrite consumption_from_previous_none, previous_row_none.
  split; intros H r Hr.
  - intros S. specialize (H r Hr). unfold earlier_of_service in H.
    apply Z.eqb_eq in S. now rewrite S in H.
  - unfold earlier_of_service.
    destruct (Z.eqb_spec (service_id r) (service_id self)) as [S|_];
      [|reflexivity].
    now rewrite (H r Hr S).
Qed.

Lemma from_previous_none_iff_witness :
  consumption_from_previous
    [mkRow 1 (reading 2025 1 15 (D 650 (-1)));
     mkRow 2 (reading 2025 1 1 (D 500 (-1)))]
    (mkRow 1 (reading 2025 1 15 (D 650 (-1))))
  = Returns None.
Proof.
  apply from_previous_none_iff.
  intros r Hr S. cbn in Hr.
  destruct Hr as [<-|[<-|[]]]; [reflexivity | discriminate S].
Defined.

(** X2. When the table holds an earlier row of the same service, the
    property is the measurement's value minus the value of such a row that
    no other one is dated after (the subtraction's outcome, which may be an
    exception of Decimal). *)
Theorem from_previous_is_delta_to_latest_earlier :
  forall table self r0,
    In r0 table ->
    earlier_of_service self r0 = true ->
    exists prev,
      In prev table
      /\ service_id prev = service_id self
      /\ Date.ltb (date (measurement prev)) (date (measurement self)) = true
      /\ (forall r, In r table -> service_id r = service_id self ->
                    Date.ltb (date (measurement r)) (date (measurement self))
                    = true ->
                    date_le (measurement r) (measurement prev))
      /\ consumption_from_previous table self
         = (d <- Dec.sub (value (measurement self))
                         (value (measurement prev)) ;;
            Returns (Some d)).
Proof.
  intros table self r0 H0 E0.
  destruct (previous_row table self) as [prev|] eqn:P.
  - destruct (previous_row_some _ _ _ P) as (Hp & Ep & Mp).
    apply earlier_of_service_spec in Ep. destruct Ep as [Sp Lp].
    exists prev. repeat split; try assumption.
    + intros r Hr Sr Lr. apply Mp; [exact Hr|].
      now apply earlier_of_service_spec.
    + unfold consumption_from_previous. now rewrite P.
  - rewrite previous_row_none in P. rewrite (P r0 H0) in E0. discriminate.
Qed.

Lemma from_previous_is_delta_to_latest_earlier_witness :
  exists prev,
    value (measurement prev) = D 500 (-1)
    /\ consumption_from_previous
         [mkRow 1 (reading 2025 1 1 (D 500 (-1)));
          mkRow 2 (reading 2025 1 9 (D 70 0));
          mkRow 1 (reading 2025 1 15 (D 650 (-1)))]
         (mkRow 1 (reading 2025 1 15 (D 650 (-1))))
       = (d <- Dec.sub (D 650 (-1)) (value (measurement prev)) ;;
          Returns (Some d)).
Proof.
  destruct (from_previous_is_delta_to_latest_earlier
              [mkRow 1 (reading 2025 1 1 (D 500 (-1)));
               mkRow 2 (reading 2025 1 9 (D 70 0));
               mkRow 1 (reading 2025 1 15 (D 650 (-1)))]
              (mkRow 1 (reading 2025 1 15 (D 650 (-1))))
              (mkRow 1 (reading 2025 1 1 (D 500 (-1))))
              (or_introl eq_refl) eq_refl) as (prev & Hp & Sp & Lp & _ & H).
  exists prev. split; [|exact H].
  cbn in Hp. destruct Hp as [<-|[<-|[<-|[]]]];
    first [reflexivity | discriminate Sp | discriminate Lp].
Defined.

(** X3. On values of the column type the property raises nothing: it is
    None, or a finite Decimal that is exactly the measurement's value minus
    the previous row's value. *)
Theorem from_previous_exact :
  forall table self,
    Dec.fits_numeric_12_3 (value (measurement self)) = true ->
    (forall r, In r table ->
               Dec.fits_numeric_12_3 (value (measurement r)) = true) ->
    consumption_from_previous table self = Returns None
    \/ exists prev d,
         previous_row table self = Some prev
         /\ consumption_from_previous table self = Returns (Some d)
         /\ Dec.on_grid d = true
         /\ Dec.thousandths d
            = Dec.thousandths (value (measurement self))
              - Dec.thousandths (value (measurement prev)).
Proof.
  intros table self Fs Ft. unfold consumption_from_previous.
  destruct (previous_row table self) as [prev|] eqn:P; [right | now left].
  destruct (previous_row_some _ _ _ P) as (Hp & _ & _).
  apply fits_on_grid in Fs. destruct Fs as [Gs Bs].
  destruct (fits_on_grid _ (Ft prev Hp)) as [Gp Bp].
  destruct (sub_exact _ _ Gs Gp) as (d & Hd & Gd & Td).
  { change (10 ^ 12) with 1000000000000 in *.
    change (10 ^ 28) with 10000000000000000000000000000. lia. }
  exists prev, d. rewrite Hd. now repeat split.
Qed.

Lemma from_previous_exact_witness :
  exists d,
    consumption_from_previous
      [mkRow 1 (reading 2025 1 1 (D 500 (-1)));
       mkRow 1 (reading 2025 1 15 (D 650 (-1)))]
      (mkRow 1 (reading 2025 1 15 (D 650 (-1))))
    = Returns (Some d)
    /\ Dec.thousandths d = 15000.
Proof.
  destruct (from_previous_exact
              [mkRow 1 (reading 2025 1 1 (D 500 (-1)));
               mkRow 1 (reading 2025 1 15 (D 650 (-1)))]
              (mkRow 1 (reading 2025 1 15 (D 650 (-1)))) eq_refl)
    as [N | (prev & d & P & Hd & _ & Td)].
  - intros r Hr. cbn in Hr. destruct Hr as [<-|[<-|[]]]; reflexivity.
  - discriminate N.
  - exists d. split; [exact Hd|].
    injection P as <-. exact Td.
Defined.

(** X4. The order in which the table holds its rows does not matter when
    the earlier rows of the service that share a date share their value (in
    particular when a service has one reading a day). *)
Theorem from_previous_any_row_order :
  forall table table' self,
    Permutation table table' ->
    (forall a b, In a table -> In b table ->
                 earlier_of_service self a = true ->
                 earlier_of_service self b = true ->
                 date (measurement a) = date (measurement b) ->
                 value (measurement a) = value (measurement b)) ->
    consumption_from_previous table self
    = consumption_from_previous table' self.
Proof.
  intros table table' self P Inj.
  unfold consumption_from_previous.
  destruct (previous_row table self) as [p|] eqn:E;
    destruct (previous_row table' self) as [p'|] eqn:E'.
  - destruct (previous_row_some _ _ _ E) as (Hp & Ep & Mp).
    destruct (previous_row_some _ _ _ E') as (Hp' & Ep' & Mp').
    apply (Permutation_in _ (Permutation_sym P)) in Hp'.
    rewrite (Inj p p' Hp Hp' Ep Ep'); [reflexivity|].
    apply date_le_antisym.
    + apply Mp'; [now apply (Permutation_in _ P) | exact Ep].
    + now apply Mp.
  - destruct (previous_row_some _ _ _ E) as (Hp & Ep & _).
    rewrite previous_row_none in E'.
    rewrite (E' p (Permutation_in _ P Hp)) in Ep. discriminate.
  - destruct (previous_row_some _ _ _ E') as (Hp' & Ep' & _).
    rewrite previous_row_none in E.
    rewrite (E p' (Permutation_in _ (Permutation_sym P) Hp')) in Ep'.
    discriminate.
  - reflexivity.
Qed.

Lemma from_previous_any_row_order_witness :
  consumption_from_previous
    [mkRow 1 (reading 2025 1 1 (D 500 (-1)));
     mkRow 1 (reading 2025 1 15 (D 650 (-1)))]
    (mkRow 1 (reading 2025 1 15 (D 650 (-1))))
  = consumption_from_previous
      [mkRow 1 (reading 2025 1 15 (D 650 (-1)));
       mkRow 1 (reading 2025 1 1 (D 500 (-1)))]
      (mkRow 1 (reading 2025 1 15 (D 650 (-1)))).
Proof.
  apply from_previous_any_row_order.
  - apply perm_swap.
  - intros a b Ha Hb Ea Eb _. cbn in Ha, Hb.
    destruct Ha as [<-|[<-|[]]], Hb as [<-|[<-|[]]];
      first [reflexivity | discriminate Ea | discriminate Eb].
Defined.

(** ** last_measurement on a loaded Service *)

Lemma last_measurement_hd (self : Service) :
  last_measurement self = hd_error (measurements self).
Proof.
  unfold last_measurement. now destruct (measurements self).
Qed.

Lemma in_relationship (table : list MeasurementRow) (sid : Z)
    (m : Measurement) :
  In m (relationship_measurements table sid) <-> In (mkRow sid m) table.
Proof.
  unfold relationship_measurements.
  split.
  - intros H. apply (Permutation_in _ (order_by_desc_perm date _)) in H.
    apply in_map_iff in H. destruct H as ([s x] & E & H).
    apply filter_In in H. destruct H as [H S].
    cbn in E, S. apply Z.eqb_eq in S. now subst.
  - intros H.
    apply (Permutation_in _ (Permutation_sym (order_by_desc_perm date _))).
    apply in_map_iff. exists (mkRow sid m). split; [reflexivity|].
    apply filter_In. split; [exact H|]. apply Z.eqb_refl.
Qed.

(** X5. On a Service as the session loads it, last_measurement is None
    exactly when the table holds no row of the service; otherwise it is a
    reading of the service that no reading of the service is dated after. *)
Theorem last_measurement_is_latest :
  forall table sid,
    (last_measurement (load_service table sid) = None
     <-> forall r, In r table -> service_id r <> sid)
    /\ (forall m,
          last_measurement (load_service table sid) = Some m ->
          In (mkRow sid m) table
          /\ forall r, In r table -> service_id r = sid ->
                       date_le (measurement r) m).
Proof.
  intros table sid. rewrite last_measurement_hd. cbn [load_service measurements].
  split.
  - unfold relationship_measurements. rewrite hd_order_by_desc_nil. split.
    + intros E r Hr S.
      assert (I : In (measurement r)
                    (map measurement
                       (filter (fun r => service_id r =? sid) table))).
      { apply in_map, filter_In. split; [exact Hr | now apply Z.eqb_eq]. }
      rewrite E in I. contradiction.
    + intros H. induction table as [|x t IH]; [reflexivity|]. simpl.
      destruct (Z.eqb_spec (service_id x) sid) as [S|_].
      * exfalso. apply (H x); [now left | exact S].
      * apply IH. intros r Hr. apply H. now right.
  - intros m H.
    pose proof (in_relationship table sid) as I.
    unfold relationship_measurements in *.
    apply hd_order_by_desc_max in H. destruct H as [Hm Mm].
    split.
    + apply I. now apply (Permutation_in _
                            (Permutation_sym (order_by_desc_perm date _))).
    + intros [s x] Hr S. cbn in S. subst s. apply Mm.
      apply (Permutation_in _ (order_by_desc_perm date _)).
      now apply I.
Qed.

Lemma last_measurement_is_latest_witness :
  last_measurement
    (load_service
       [mkRow 1 (reading 2025 1 1 (D 500 (-1)));
        mkRow 2 (reading 2025 3 9 (D 70 0));
        mkRow 1 (reading 2025 1 15 (D 650 (-1)))] 1)
  = Some (reading 2025 1 15 (D 650 (-1)))
  /\ In (mkRow 1 (reading 2025 1 15 (D 650 (-1))))
       [mkRow 1 (reading 2025 1 1 (D 500 (-1)));
        mkRow 2 (reading 2025 3 9 (D 70 0));
        mkRow 1 (reading 2025 1 15 (D 650 (-1)))].
Proof.
  split; [reflexivity|].
  apply (proj2 (last_measurement_is_latest
                  [mkRow 1 (reading 2025 1 1 (D 500 (-1)));
                   mkRow 2 (reading 2025 3 9 (D 70 0));
                   mkRow 1 (reading 2025 1 15 (D 650 (-1)))] 1)
               (reading 2025 1 15 (D 650 (-1))) eq_refl).
Defined.

(** ** The month's consumption and the per-reading differences *)

Section FromPrevious.

Variables (table : list MeasurementRow) (sid : Z).

Let readings := relationship_measurements table sid.

Hypothesis distinct_dates : NoDup (map date readings).

(** With one reading a day, the row the query finds is the latest earlier
    reading of the service. *)
Lemma from_previous_latest (m : Measurement) :
  from_previous table sid m
  = match latest_before (date m) readings with
    | None => Returns None
    | Some b => d <- Dec.sub (value m) (value b) ;; Returns (Some d)
    end.
Proof.
  unfold from_previous, consumption_from_previous, latest_before.
  set (self := mkRow sid m).
  assert (Sp : forall r, earlier_of_service self r = true
                         <-> service_id r = sid
                             /\ Date.ltb (date (measurement r)) (date m) = true)
    by (intros r; apply earlier_of_service_spec).
  destruct (previous_row table self) as [prev|] eqn:P;
    destruct (latest _ readings) as [b|] eqn:L.
  - destruct (previous_row_some _ _ _ P) as (Hp & Ep & Mp).
    apply latest_some in L. destruct L as (Hb & Pb & Mb).
    destruct prev as [s mp]. apply Sp in Ep. cbn in Ep.
    destruct Ep as [-> Lp]. cbn [measurement].
    assert (Hmp : In mp readings) by now apply in_relationship.
    replace mp with b; [reflexivity|].
    apply (NoDup_dates readings); try assumption.
    apply date_le_antisym.
    + apply (Mp (mkRow sid b)); [now apply in_relationship|].
      apply Sp. now split.
    + now apply Mb.
  - destruct (previous_row_some _ _ _ P) as (Hp & Ep & _).
    destruct prev as [s mp]. apply Sp in Ep. cbn in Ep.
    destruct Ep as [-> Lp].
    assert (Hmp : In mp readings) by now apply in_relationship.
    rewrite (latest_none _ _ L mp Hmp) in Lp. discriminate.
  - apply latest_some in L. destruct L as (Hb & Pb & _).
    rewrite previous_row_none in P.
    assert (E : earlier_of_service self (mkRow sid b) = true)
      by (apply Sp; now split).
    rewrite P in E; [discriminate | now apply in_relationship].
  - reflexivity.
Qed.

Variables (year month : Z).

Hypothesis column_values : numeric_ok readings = true.

(** Along the month's readings, each reading after the first has the one
    before it as its previous row. *)
Lemma from_previous_chain (a : Measurement) (l : list Measurement) :
  StronglySorted date_le (a :: l) ->
  NoDup (a :: l) ->
  (forall x, In x (a :: l) -> In x readings /\ in_month year month x = true) ->
  (forall x, In x readings -> in_month year month x = true ->
             date_le x a \/ In x l) ->
  exists ds,
    map (from_previous table sid) l = map (fun d => Returns (Some d)) ds
    /\ total (map Dec.thousandths ds)
       = exact_deltas (Dec.thousandths (value a))
           (map (fun m => Dec.thousandths (value m)) l).
Proof.
  revert a. induction l as [|b t IH]; intros a S U In_m Cover.
  - exists []. split; reflexivity.
  - inversion S as [|? ? S' Ha]; subst.
    inversion U as [|? ? Na U']; subst.
    rewrite Forall_forall in Ha.
    destruct (In_m a (or_introl eq_refl)) as [Ra Ia].
    destruct (In_m b (or_intror (or_introl eq_refl))) as [Rb Ib].
    assert (Lab : Date.ltb (date a) (date b) = true).
    { destruct (Date.ltb (date a) (date b)) eqn:E; [reflexivity|].
      exfalso. apply Na. left. symmetry.
      apply (NoDup_dates readings); try assumption.
      apply date_le_antisym; [apply Ha; now left | exact E]. }
    assert (Below : forall x, In x readings ->
                              Date.ltb (date x) (date b) = true ->
                              date_le x a).
    { intros x Rx Lx.
      destruct (in_month year month x) eqn:Ix.
      - destruct (Cover x Rx Ix) as [Hx|[<-|Hx]]; [exact Hx | |].
        + rewrite ltb_irrefl in Lx. discriminate.
        + inversion S' as [|? ? _ Hb]; subst.
          rewrite Forall_forall in Hb. specialize (Hb x Hx).
          unfold date_le in Hb. congruence.
      - apply in_month_spec in Ia, Ib.
        apply not_true_iff_false in Ix. rewrite in_month_spec in Ix.
        apply ltb_spec in Lx. unfold date_le. apply ltb_false_spec. lia. }
    assert (Prev : latest_before (date b) readings = Some a).
    { unfold latest_before.
      destruct (latest _ readings) as [c|] eqn:L.
      - apply latest_some in L. destruct L as (Rc & Lc & Mc).
        f_equal. apply (NoDup_dates readings); try assumption.
        apply date_le_antisym; [now apply Below | now apply Mc].
      - rewrite (latest_none _ _ L a Ra) in Lab. discriminate. }
    destruct (fits_on_grid _ (numeric_ok_forall _ column_values a Ra))
      as [Ga Ba].
    destruct (fits_on_grid _ (numeric_ok_forall _ column_values b Rb))
      as [Gb Bb].
    destruct (sub_exact (value b) (value a) Gb Ga) as (d & Hd & Gd & Td).
    { change (10 ^ 12) with 1000000000000 in *.
      change (10 ^ 28) with 10000000000000000000000000000. lia. }
    destruct (IH b S' U') as (ds & Hds & Tds).
    + intros x Hx. apply In_m. now right.
    + intros x Rx Ix. destruct (Cover x Rx Ix) as [Hx|[<-|Hx]].
      * left. apply date_le_trans with a; [exact Hx | now apply date_lt_le].
      * left. apply date_le_refl.
      * now right.
    + exists (d :: ds). split.
      * cbn [map]. rewrite Hds, from_previous_latest, Prev, Hd.
        reflexivity.
      * cbn [map total fold_right exact_deltas]. fold (total (map Dec.thousandths ds)).
        rewrite Tds, Td. reflexivity.
Qed.

End FromPrevious.

Lemma month_readings_NoDup (readings : list Measurement) (year month : Z) :
  NoDup (map date readings) -> NoDup (month_readings readings year month).
Proof.
  intros U. unfold month_readings. apply NoDup_filter.
  apply (Permutation_NoDup (Permutation_sym (sorted_perm readings))).
  now apply NoDup_map_inv in U.
Qed.

(** The chain of the whole month, after its first reading. *)
Lemma month_chain (table : list MeasurementRow) (sid year month : Z)
    (first : Measurement) (rest : list Measurement) :
  NoDup (map date (relationship_measurements table sid)) ->
  numeric_ok (relationship_measurements table sid) = true ->
  month_readings (relationship_measurements table sid) year month
  = first :: rest ->
  exists ds,
    map (from_previous table sid) rest = map (fun d => Returns (Some d)) ds
    /\ total (map Dec.thousandths ds)
       = exact_deltas (Dec.thousandths (value first))
           (map (fun m => Dec.thousandths (value m)) rest).
Proof.
  intros U N M.
  apply (from_previous_chain table sid U year month N).
  - rewrite <- M. apply month_readings_ordered.
  - rewrite <- M. now apply month_readings_NoDup.
  - intros x Hx. rewrite <- M in Hx. now apply month_readings_In.
  - intros x Rx Ix.
    assert (Hx : In x (first :: rest))
      by (rewrite <- M; now apply month_readings_In).
    destruct Hx as [<-|Hx]; [left; apply date_le_refl | now right].
Qed.

(** X6. For a loaded Service with one reading a day and values of the
    column type, when some reading is of an earlier month, every reading of
    the month has a consumption_from_previous and the month's consumption is
    their sum. *)
Theorem month_is_sum_of_from_previous :
  forall table sid year month,
    numeric_ok (relationship_measurements table sid) = true ->
    NoDup (map date (relationship_measurements table sid)) ->
    (exists b, In b (relationship_measurements table sid)
               /\ before_month year month b = true) ->
    exists d ds,
      fst (consumption_for_month (load_service table sid) year month)
      = Returns d
      /\ map (from_previous table sid)
             (month_readings (relationship_measurements table sid)
                year month)
         = map (fun x => Returns (Some x)) ds
      /\ Dec.thousandths d = total (map Dec.thousandths ds).
Proof.
  intros table sid year month N U (b & Rb & Pb).
  set (readings := relationship_measurements table sid) in *.
  change (fst (consumption_for_month (load_service table sid) year month))
    with (consumption readings year month).
  destruct (consumption_exact readings year month N) as (d & Hd & _ & Td).
  exists d. unfold exact_sum_of_deltas in Td.
  destruct (month_readings readings year month) as [|first rest] eqn:M.
  - exists []. now repeat split.
  - destruct (month_chain table sid year month first rest U N M)
      as (ds & Hds & Tds).
    pose proof (baseline_before_month _ _ _ _ _ M) as B.
    destruct (latest (before_month year month) readings) as [b0|] eqn:L.
    2:{ rewrite (latest_none _ _ L b Rb) in Pb. discriminate. }
    rewrite B in Td. cbn [value_or_zero] in Td.
    pose proof (latest_some _ _ _ L) as (R0 & _ & _).
    assert (R1 : In first readings).
    { apply (month_readings_In readings year month). rewrite M. now left. }
    destruct (fits_on_grid _ (numeric_ok_forall _ N b0 R0)) as [G0 B0].
    destruct (fits_on_grid _ (numeric_ok_forall _ N first R1)) as [G1 B1].
    destruct (sub_exact (value first) (value b0) G1 G0) as (d0 & Hd0 & _ & Td0).
    { change (10 ^ 12) with 1000000000000 in *.
      change (10 ^ 28) with 10000000000000000000000000000. lia. }
    exists (d0 :: ds). repeat split; [exact Hd | |].
    + cbn [map]. rewrite Hds, (from_previous_latest table sid U).
      fold readings. rewrite B, Hd0. reflexivity.
    + cbn [map total fold_right exact_deltas] in *.
      fold (total (map Dec.thousandths ds)). lia.
Qed.

(** X7. Under the same conditions, when no reading is of an earlier month,
    the first reading of the month has no consumption_from_previous (None),
    yet the month's consumption counts its whole value: it is that value
    plus the sum of the later readings' consumption_from_previous. *)
Theorem first_month_counts_first_reading :
  forall table sid year month first rest,
    numeric_ok (relationship_measurements table sid) = true ->
    NoDup (map date (relationship_measurements table sid)) ->
    (forall m, In m (relationship_measurements table sid) ->
               before_month year month m = false) ->
    month_readings (relationship_measurements table sid) year month
    = first :: rest ->
    from_previous table sid first = Returns None
    /\ exists d ds,
         fst (consumption_for_month (load_service table sid) year month)
         = Returns d
         /\ map (from_previous table sid) rest
            = map (fun x => Returns (Some x)) ds
         /\ Dec.thousandths d
            = Dec.thousandths (value first) + total (map Dec.thousandths ds).
Proof.
  intros table sid year month first rest N U E M.
  set (readings := relationship_measurements table sid) in *.
  change (fst (consumption_for_month (load_service table sid) year month))
    with (consumption readings year month).
  pose proof (baseline_before_month _ _ _ _ _ M) as B.
  rewrite (latest_all_false _ _ E) in B.
  split.
  - rewrite (from_previous_latest table sid U). fold readings. now rewrite B.
  - destruct (consumption_exact readings year month N) as (d & Hd & _ & Td).
    destruct (month_chain table sid year month first rest U N M)
      as (ds & Hds & Tds).
    exists d, ds. repeat split; [exact Hd | exact Hds |].
    unfold exact_sum_of_deltas in Td. fold readings in Td.
    rewrite M, B in Td.
    cbn [map exact_deltas value_or_zero Dec.zero Dec.thousandths Dec.signed]
      in Td.
    lia.
Qed.

Lemma month_is_sum_of_from_previous_witness :
  exists d ds,
    fst (consumption_for_month (load_service example_table 1) 2025 2)
    = Returns d
    /\ map (from_previous example_table 1)
           (month_readings (relationship_measurements example_table 1)
              2025 2)
       = map (fun x => Returns (Some x)) ds
    /\ Dec.thousandths d = total (map Dec.thousandths ds).
Proof.
  apply month_is_sum_of_from_previous.
  - reflexivity.
  - cbn. repeat constructor; cbn; intuition discriminate.
  - exists (reading 2025 1 1 (D 1200 (-1))). split; [cbn; tauto | reflexivity].
Defined.

Lemma first_month_counts_first_reading_witness :
  from_previous example_table 1 (reading 2025 1 1 (D 1200 (-1)))
  = Returns None
  /\ fst (consumption_for_month (load_service example_table 1) 2025 1)
     = Returns (D 1200 (-1)).
Proof.
  destruct (first_month_counts_first_reading example_table 1 2025 1
              (reading 2025 1 1 (D 1200 (-1))) []) as [H _].
  - reflexivity.
  - cbn. repeat constructor; cbn; intuition discriminate.
  - intros m Hm. cbn in Hm.
    destruct Hm as [<-|[<-|[<-|[]]]]; reflexivity.
  - reflexivity.
  - split; [exact H | reflexivity].
Defined.

(** ** More on the month's consumption *)

(** X8. For a cumulative series (values of the column type that are not
    negative and never decrease with the date) the month's consumption is
    never negative. *)
Theorem cumulative_series_never_negative :
  forall readings year month,
    numeric_ok readings = true ->
    (forall m, In m readings -> 0 <= Dec.thousandths (value m)) ->
    (forall a b, In a readings -> In b readings ->
                 Date.ltb (date a) (date b) = true ->
                 Dec.thousandths (value a) <= Dec.thousandths (value b)) ->
    exists d,
      consumption readings year month = Returns d
      /\ 0 <= Dec.thousandths d.
Proof.
  intros readings year month N Pos Mono.
  destruct (consumption_exact readings year month N) as (d & Hd & _ & Td).
  exists d. split; [exact Hd|]. rewrite Td. unfold exact_sum_of_deltas.
  pose proof (month_readings_In readings year month) as In_month.
  pose proof (month_readings_ordered readings year month) as S.
  destruct (month_readings readings year month) as [|first rest]; [lia|].
  rewrite exact_deltas_last. cbn [map].
  rewrite last_cons, (last_of_map (fun m => Dec.thousandths (value m))).
  destruct (proj1 (In_month (last rest first)) (last_In_cons first rest))
    as [Rl _].
  assert (Fl : date_le first (last rest first))
    by (apply ordered_last; [exact S | now left]).
  unfold latest_before.
  destruct (latest _ readings) as [b|] eqn:L; cbn [value_or_zero].
  - apply latest_some in L. destruct L as (Rb & Lb & _).
    assert (Date.ltb (date b) (date (last rest first)) = true).
    { unfold date_le in Fl. apply ltb_spec in Lb.
      rewrite ltb_false_spec in Fl. apply ltb_spec. lia. }
    specialize (Mono b (last rest first) Rb Rl H). lia.
  - specialize (Pos _ Rl).
    cbn [Dec.zero Dec.thousandths Dec.signed]. lia.
Qed.

Lemma cumulative_series_never_negative_witness :
  exists d,
    consumption docstring_readings 2025 2 = Returns d
    /\ 0 <= Dec.thousandths d.
Proof.
  apply cumulative_series_never_negative.
  - reflexivity.
  - intros m Hm. cbn in Hm.
    destruct Hm as [<-|[<-|[<-|[]]]]; cbn; lia.
  - intros a b Ha Hb L. cbn in Ha, Hb.
    destruct Ha as [<-|[<-|[<-|[]]]], Hb as [<-|[<-|[<-|[]]]];
      first [discriminate L | cbn; lia].
Defined.

(** X9. Of the readings of earlier months only the latest matters: two
    collections with the same readings in the month and the same latest
    reading of an earlier month give the same result. *)
Theorem older_history_ignored :
  forall readings readings' year month,
    filter (in_month year month) readings
    = filter (in_month year month) readings' ->
    latest (before_month year month) readings
    = latest (before_month year month) readings' ->
    consumption readings year month = consumption readings' year month.
Proof.
  intros readings readings' year month F B.
  rewrite !consumption_sum_of_deltas. unfold sum_of_deltas.
  assert (M : month_readings readings year month
              = month_readings readings' year month).
  { unfold month_readings. now rewrite !filter_sorted, F. }
  destruct (month_readings readings year month) as [|first rest] eqn:M1;
    rewrite <- M; [reflexivity|].
  rewrite (baseline_before_month _ _ _ _ _ M1).
  symmetry in M. rewrite (baseline_before_month _ _ _ _ _ M).
  now rewrite B.
Qed.

Lemma older_history_ignored_witness :
  consumption docstring_readings 2025 2
  = consumption (reading 2024 6 1 (D 99 0) :: reading 2023 1 1 (D 5 0)
                 :: docstring_readings) 2025 2.
Proof.
  apply older_history_ignored; reflexivity.
Defined.

(** * The exercises *)

(** ** The car of the race *)

Lemma move_invariant (car : Race.Car) (distance : Z) :
  0 <= Race.fuel car ->
  0 <= Race.fuel (Race.move car distance)
  /\ Race.fuel (Race.move car distance)
     + Race.trip_distance (Race.move car distance)
     = Race.fuel car + Race.trip_distance car.
Proof.
  intros F. unfold Race.move. cbn.
  destruct (Z.ltb_spec (Race.fuel car) distance); lia.
Qed.

Lemma moves_invariant (car : Race.Car) (distances : list Z) :
  0 <= Race.fuel car ->
  0 <= Race.fuel (fold_left Race.move distances car)
  /\ Race.fuel (fold_left Race.move distances car)
     + Race.trip_distance (fold_left Race.move distances car)
     = Race.fuel car + Race.trip_distance car.
Proof.
  revert car. induction distances as [|d ds IH]; intros car F; cbn.
  - lia.
  - destruct (move_invariant car d F) as [F' C].
    specialize (IH (Race.move car d) F'). lia.
Qed.

(** X10. Whatever distances it is asked to move, a car with fuel never ends
    with negative fuel, and its fuel and its trip distance always add up to
    what they added up to at the start: it never travels further than its
    fuel at the start allows. *)
Theorem moves_conserve_fuel_and_distance :
  forall car distances,
    0 <= Race.fuel car ->
    let car' := fold_left Race.move distances car in
    0 <= Race.fuel car'
    /\ Race.fuel car' + Race.trip_distance car'
       = Race.fuel car + Race.trip_distance car
    /\ Race.trip_distance car'
       <= Race.trip_distance car + Race.fuel car.
Proof.
  intros car distances F car'.
  destruct (moves_invariant car distances F) as [F' C].
  subst car'. lia.
Qed.

Lemma moves_conserve_fuel_and_distance_witness :
  Race.trip_distance
    (fold_left Race.move [3; 8; 0; 5]
       (Race.mkCar String.EmptyString String.EmptyString 7 0)) <= 0 + 7.
Proof.
  apply (moves_conserve_fuel_and_distance
           (Race.mkCar String.EmptyString String.EmptyString 7 0)
           [3; 8; 0; 5]).
  cbn. lia.
Defined.

(** X11. A car as __init__ builds it (fuel drawn from range(0, 8), trip
    distance 0) stays short of the race's desired distance of 12 after any
    moves: the test that names a winner never succeeds. *)
Theorem no_car_reaches_desired_dist :
  forall model color drawn distances,
    0 <= drawn < 8 ->
    Race.reached (fold_left Race.move distances (Race.init model color drawn))
    = false.
Proof.
  intros model color drawn distances R.
  destruct (moves_invariant (Race.init model color drawn) distances)
    as [F C]; [cbn; lia|].
  unfold Race.reached, Race.desired_dist.
  apply Z.leb_gt. cbn in C. lia.
Qed.

Lemma no_car_reaches_desired_dist_witness :
  Race.reached
    (fold_left Race.move [8; 8; 8]
       (Race.init String.EmptyString String.EmptyString 7))
  = false.
Proof.
  apply no_car_reaches_desired_dist. lia.
Defined.

(** ** The even numbers of a list *)

Lemma even_only_loop (l acc : list Z) :
  fold_left
    (fun new_list element =>
       if element mod 2 =? 0 then new_list ++ [element] else new_list)
    l acc
  = acc ++ filter Z.even l.
Proof.
  revert acc. induction l as [|x l IH]; intros acc; cbn.
  - now rewrite app_nil_r.
  - rewrite IH, Zmod_even.
    destruct (Z.even x); cbn; [now rewrite <- app_assoc | reflexivity].
Qed.

(** X12. even_only_check returns the even numbers of its input, negative
    ones included, in the order they had; so every number it returns is
    even and checking its result again changes nothing. *)
Theorem even_only_check_keeps_the_evens :
  forall l,
    even_only_check l = filter Z.even l
    /\ Forall (fun x => exists k, x = 2 * k) (even_only_check l)
    /\ even_only_check (even_only_check l) = even_only_check l.
Proof.
  intros l. unfold even_only_check. rewrite !even_only_loop. cbn [app].
  repeat split.
  - rewrite Forall_forall. intros x Hx. apply filter_In in Hx.
    now apply Z.even_spec.
  - induction l as [|x l IH]; cbn; [reflexivity|].
    destruct (Z.even x) eqn:E; cbn; rewrite ?E, IH; reflexivity.
Qed.

(** ** The common elements of two lists *)

Section CommonElementsFacts.

Context {A : Type} (eq_dec : forall x y : A, {x = y} + {x <> y}).

Lemma counter_get_absent (c : list (A * nat)) (x : A) :
  ~ In x (map fst c) -> counter_get eq_dec c x = 0%nat.
Proof.
  induction c as [|[y n] c IH]; cbn; intros H; [reflexivity|].
  destruct (eq_dec x y) as [->|_]; [tauto|]. apply IH. tauto.
Qed.

Lemma count_element_get (c : list (A * nat)) (x y : A) :
  counter_get eq_dec (count_element eq_dec x c) y
  = if eq_dec y x then S (counter_get eq_dec c y)
    else counter_get eq_dec c y.
Proof.
  induction c as [|[z n] c IH]; cbn.
  - destruct (eq_dec y x); reflexivity.
  - destruct (eq_dec x z) as [->|N]; cbn.
    + destruct (eq_dec y z); reflexivity.
    + destruct (eq_dec y z) as [->|Nz].
      * destruct (eq_dec z x); [congruence | reflexivity].
      * apply IH.
Qed.

Lemma count_element_keys (c : list (A * nat)) (x y : A) :
  In y (map fst (count_element eq_dec x c)) <-> y = x \/ In y (map fst c).
Proof.
  induction c as [|[z n] c IH]; cbn.
  - intuition congruence.
  - destruct (eq_dec x z) as [->|N]; cbn.
    + intuition congruence.
    + rewrite IH. intuition congruence.
Qed.

Lemma count_element_NoDup (c : list (A * nat)) (x : A) :
  NoDup (map fst c) -> NoDup (map fst (count_element eq_dec x c)).
Proof.
  induction c as [|[z n] c IH]; cbn; intros U.
  - repeat constructor. intros [].
  - inversion U as [|? ? Nz Uc]; subst.
    destruct (eq_dec x z) as [->|N]; cbn.
    + now constructor.
    + constructor; [|now apply IH].
      rewrite count_element_keys. intros [->|H]; [congruence | contradiction].
Qed.

Lemma Counter_loop (l : list A) (c : list (A * nat)) :
  NoDup (map fst c) ->
  NoDup (map fst (fold_left (fun c x => count_element eq_dec x c) l c))
  /\ forall y,
       counter_get eq_dec
         (fold_left (fun c x => count_element eq_dec x c) l c) y
       = (count_occ eq_dec l y + counter_get eq_dec c y)%nat.
Proof.
  revert c. induction l as [|x l IH]; intros c U; cbn [fold_left].
  - split; [exact U | reflexivity].
  - destruct (IH _ (count_element_NoDup c x U)) as [U' G].
    split; [exact U'|].
    intros y. rewrite G, count_element_get. cbn [count_occ].
    destruct (eq_dec x y) as [->|N], (eq_dec y y) as [_|N']; try congruence.
    + lia.
    + destruct (eq_dec y x); [congruence | reflexivity].
Qed.

(** A Counter holds each element once, with the number of its
    occurrences. *)
Lemma Counter_spec (l : list A) :
  NoDup (map fst (Counter eq_dec l))
  /\ forall y, counter_get eq_dec (Counter eq_dec l) y = count_occ eq_dec l y.
Proof.
  destruct (Counter_loop l []) as [U G]; [constructor|].
  split; [exact U|]. intros y. unfold Counter. rewrite G. cbn. lia.
Qed.

Lemma counter_and_keys (c1 c2 : list (A * nat)) (y : A) :
  In y (map fst (counter_and eq_dec c1 c2)) -> In y (map fst c1).
Proof.
  induction c1 as [|[x n] c1 IH]; cbn [counter_and]; [tauto|].
  match goal with
  | |- context [Nat.ltb 0 ?k] => destruct (Nat.ltb 0 k)
  end; cbn [map fst In]; tauto.
Qed.

Lemma counter_and_spec (c1 c2 : list (A * nat)) :
  NoDup (map fst c1) ->
  NoDup (map fst (counter_and eq_dec c1 c2))
  /\ forall y,
       counter_get eq_dec (counter_and eq_dec c1 c2) y
       = Nat.min (counter_get eq_dec c1 y) (counter_get eq_dec c2 y).
Proof.
  induction c1 as [|[x n] c1 IH]; intros U.
  - split; [constructor | reflexivity].
  - cbn [map fst] in U. inversion U as [|? ? Nx U1]; subst.
    destruct (IH U1) as [U' G].
    cbn [counter_and].
    set (newcount := if Nat.ltb n (counter_get eq_dec c2 x) then n
                     else counter_get eq_dec c2 x).
    assert (Hn : newcount = Nat.min n (counter_get eq_dec c2 x)).
    { unfold newcount.
      destruct (Nat.ltb_spec n (counter_get eq_dec c2 x)); lia. }
    destruct (Nat.ltb_spec 0 newcount) as [P|Z0].
    + split.
      * cbn. constructor; [|exact U'].
        intros H. apply Nx. now apply counter_and_keys in H.
      * intros y. cbn. destruct (eq_dec y x) as [->|_]; [exact Hn | apply G].
    + split; [exact U'|].
      intros y. rewrite G. cbn.
      destruct (eq_dec y x) as [->|_]; [|reflexivity].
      rewrite (counter_get_absent c1 x Nx). lia.
Qed.

Lemma elements_count (c : list (A * nat)) (y : A) :
  NoDup (map fst c) ->
  count_occ eq_dec (elements c) y = counter_get eq_dec c y.
Proof.
  unfold elements.
  induction c as [|[x n] c IH]; cbn; intros U; [reflexivity|].
  inversion U as [|? ? Nx Uc]; subst.
  rewrite count_occ_app, (IH Uc).
  destruct (eq_dec y x) as [->|N].
  - rewrite count_occ_repeat_eq by reflexivity.
    rewrite (counter_get_absent c x Nx). lia.
  - now rewrite count_occ_repeat_neq.
Qed.

Lemma common_count (l1 l2 : list A) (x : A) :
  count_occ eq_dec (lists_common_elements eq_dec l1 l2) x
  = Nat.min (count_occ eq_dec l1 x) (count_occ eq_dec l2 x).
Proof.
  unfold lists_common_elements.
  destruct (Counter_spec l1) as [U1 G1].
  destruct (Counter_spec l2) as [_ G2].
  destruct (counter_and_spec (Counter eq_dec l1) (Counter eq_dec l2) U1)
    as [U G].
  now rewrite (elements_count _ x U), G, G1, G2.
Qed.

End CommonElementsFacts.

(** X13. lists_common_elements returns the common elements with their
    multiplicity: each element occurs in the result as often as in the list
    where it occurs less often (so not at all when one list lacks it). *)
Theorem common_elements_have_the_lesser_count :
  forall (A : Type) (eq_dec : forall x y : A, {x = y} + {x <> y})
         (list_1 list_2 : list A) (x : A),
    count_occ eq_dec (lists_common_elements eq_dec list_1 list_2) x
    = Nat.min (count_occ eq_dec list_1 x) (count_occ eq_dec list_2 x).
Proof.
  intros. apply common_count.
Qed.

(** X14. Up to the order of the result, lists_common_elements does not
    depend on the order of its two arguments nor on the order of the
    elements within them; the common elements of a list with itself are the
    list's elements, rearranged. *)
Theorem common_elements_up_to_order :
  forall (A : Type) (eq_dec : forall x y : A, {x = y} + {x <> y})
         (l1 l2 l1' l2' : list A),
    Permutation l1 l1' -> Permutation l2 l2' ->
    Permutation (lists_common_elements eq_dec l1 l2)
                (lists_common_elements eq_dec l2' l1')
    /\ Permutation (lists_common_elements eq_dec l1 l1) l1.
Proof.
  intros A eq_dec l1 l2 l1' l2' P1 P2.
  split; apply (Permutation_count_occ eq_dec); intros x;
    rewrite !common_count.
  - rewrite (proj1 (Permutation_count_occ eq_dec _ _) P1 x),
      (proj1 (Permutation_count_occ eq_dec _ _) P2 x).
    apply Nat.min_comm.
  - apply Nat.min_id.
Qed.

Lemma common_elements_up_to_order_witness :
  Permutation (lists_common_elements Z.eq_dec [1; 2; 2; 3] [2; 5; 2; 1])
              (lists_common_elements Z.eq_dec [1; 2; 5; 2] [3; 2; 2; 1]).
Proof.
  apply (common_elements_up_to_order Z Z.eq_dec
           [1; 2; 2; 3] [2; 5; 2; 1] [3; 2; 2; 1] [1; 2; 5; 2]).
  - apply (Permutation_rev [1; 2; 2; 3]).
  - apply (Permutation_rev [2; 5; 2; 1]).
Defined.

(** ** Merging two dictionaries *)

Section MergedDictionaryFacts.

Context {K V : Type} (eq_dec : forall x y : K, {x = y} + {x <> y}).

Let step (m : list (K * list V)) (item : K * V) : list (K * list V) :=
  append_value eq_dec (fst item) (snd item) m.

Lemma dict_get_absent {W : Type} (d : list (K * W)) (key : K) :
  ~ In key (map fst d) -> dict_get eq_dec d key = None.
Proof.
  induction d as [|[k w] d IH]; cbn; intros H; [reflexivity|].
  destruct (eq_dec key k) as [->|_]; [tauto|]. apply IH. tauto.
Qed.

Lemma dict_get_In {W : Type} (d : list (K * W)) (key : K) :
  In key (map fst d) <-> dict_get eq_dec d key <> None.
Proof.
  induction d as [|[k w] d IH]; cbn; [tauto|].
  destruct (eq_dec key k) as [->|N].
  - split; [discriminate | auto].
  - rewrite <- IH. split; [intros [E|H]; [congruence | exact H] | auto].
Qed.

Lemma append_value_get (key : K) (value : V) (m : list (K * list V))
    (k : K) :
  dict_get eq_dec (append_value eq_dec key value m) k
  = if eq_dec k key
    then Some (match dict_get eq_dec m key with
               | Some vs => vs ++ [value]
               | None => [value]
               end)
    else dict_get eq_dec m k.
Proof.
  induction m as [|[k0 vs] m IH]; cbn.
  - destruct (eq_dec k key); reflexivity.
  - destruct (eq_dec key k0) as [->|N]; cbn.
    + destruct (eq_dec k k0); reflexivity.
    + destruct (eq_dec k k0) as [->|N0].
      * destruct (eq_dec k0 key); [congruence | reflexivity].
      * apply IH.
Qed.

Lemma append_value_keys (key : K) (value : V) (m : list (K * list V)) :
  map fst (append_value eq_dec key value m)
  = if in_dec eq_dec key (map fst m) then map fst m
    else map fst m ++ [key].
Proof.
  induction m as [|[k0 vs] m IH]; cbn [append_value map fst].
  - now destruct (in_dec eq_dec key []).
  - destruct (in_dec eq_dec key (k0 :: map fst m)) as [I|I];
      destruct (eq_dec key k0) as [->|N]; cbn [map fst].
    + reflexivity.
    + rewrite IH. destruct I as [E|I]; [congruence|].
      now destruct (in_dec eq_dec key (map fst m)).
    + exfalso. apply I. now left.
    + rewrite IH.
      destruct (in_dec eq_dec key (map fst m)) as [J|J]; [|reflexivity].
      exfalso. apply I. now right.
Qed.

(** One pass of the inner loop over a dictionary. *)
Lemma pass_get (d : list (K * V)) (m : list (K * list V)) (k : K) :
  NoDup (map fst d) ->
  dict_get eq_dec (fold_left step d m) k
  = match dict_get eq_dec d k with
    | Some v => Some (match dict_get eq_dec m k with
                      | Some vs => vs ++ [v]
                      | None => [v]
                      end)
    | None => dict_get eq_dec m k
    end.
Proof.
  subst step. revert m. induction d as [|[k0 v0] d IH]; intros m U; cbn.
  - reflexivity.
  - inversion U as [|? ? N0 Ud]; subst.
    rewrite (IH _ Ud), append_value_get.
    destruct (eq_dec k k0) as [->|N].
    + now rewrite (dict_get_absent d k0 N0).
    + reflexivity.
Qed.

Lemma pass_keys (d : list (K * V)) (m : list (K * list V)) :
  NoDup (map fst d) ->
  map fst (fold_left step d m)
  = map fst m
    ++ filter (fun k => if in_dec eq_dec k (map fst m) then false else true)
         (map fst d).
Proof.
  subst step. revert m. induction d as [|[k0 v0] d IH]; intros m U; cbn.
  - now rewrite app_nil_r.
  - inversion U as [|? ? N0 Ud]; subst.
    rewrite (IH _ Ud), append_value_keys.
    destruct (in_dec eq_dec k0 (map fst m)) as [I|I]; [reflexivity|].
    rewrite <- app_assoc. cbn. do 2 f_equal.
    apply filter_ext_in. intros k Hk.
    destruct (in_dec eq_dec k (map fst m ++ [k0])) as [J|J],
             (in_dec eq_dec k (map fst m)) as [J'|J']; try reflexivity.
    + apply in_app_or in J. destruct J as [J|[<-|[]]]; contradiction.
    + exfalso. apply J. apply in_or_app. now left.
Qed.

End MergedDictionaryFacts.

(** X15. In the merged dictionary every key of either input maps to the
    list of its values: both values, the first dictionary's first, for a
    key of both; a one-element list for a key of one; and no other key is
    there. *)
Theorem merged_dictionary_lookup :
  forall (K V : Type) (eq_dec : forall x y : K, {x = y} + {x <> y})
         (dict_1 dict_2 : list (K * V)) (key : K),
    is_dict dict_1 -> is_dict dict_2 ->
    dict_get eq_dec (merged_dictionary eq_dec dict_1 dict_2) key
    = match dict_get eq_dec dict_1 key, dict_get eq_dec dict_2 key with
      | Some v1, Some v2 => Some [v1; v2]
      | Some v1, None => Some [v1]
      | None, Some v2 => Some [v2]
      | None, None => None
      end.
Proof.
  intros K V eq_dec dict_1 dict_2 key U1 U2.
  unfold merged_dictionary. cbn [fold_left].
  rewrite (pass_get eq_dec dict_2 _ key U2), (pass_get eq_dec dict_1 _ key U1).
  cbn [dict_get].
  destruct (dict_get eq_dec dict_1 key), (dict_get eq_dec dict_2 key);
    reflexivity.
Qed.

Lemma merged_dictionary_lookup_witness :
  dict_get Z.eq_dec
    (merged_dictionary Z.eq_dec [(1, 10); (2, 20)] [(2, 30); (3, 40)]) 2
  = Some [20; 30].
Proof.
  rewrite (merged_dictionary_lookup Z Z Z.eq_dec
             [(1, 10); (2, 20)] [(2, 30); (3, 40)] 2).
  - reflexivity.
  - unfold is_dict. cbn. repeat constructor; cbn; intuition discriminate.
  - unfold is_dict. cbn. repeat constructor; cbn; intuition discriminate.
Defined.

(** X16. The merged dictionary is a dictionary again (each key once); its
    keys are those of the first input in their order, followed by the keys
    that only the second input has, in their order. *)
Theorem merged_dictionary_keys :
  forall (K V : Type) (eq_dec : forall x y : K, {x = y} + {x <> y})
         (dict_1 dict_2 : list (K * V)),
    is_dict dict_1 -> is_dict dict_2 ->
    map fst (merged_dictionary eq_dec dict_1 dict_2)
    = map fst dict_1
      ++ filter (fun k => if in_dec eq_dec k (map fst dict_1) then false
                          else true)
           (map fst dict_2)
    /\ is_dict (merged_dictionary eq_dec dict_1 dict_2).
Proof.
  intros K V eq_dec dict_1 dict_2 U1 U2.
  assert (E : map fst (merged_dictionary eq_dec dict_1 dict_2)
              = map fst dict_1
                ++ filter (fun k => if in_dec eq_dec k (map fst dict_1)
                                    then false else true)
                     (map fst dict_2)).
  { unfold merged_dictionary. cbn [fold_left].
    rewrite (pass_keys eq_dec dict_2 _ U2), (pass_keys eq_dec dict_1 _ U1).
    cbn [map app]. rewrite filter_ext with (g := fun _ => true), filter_true.
    - reflexivity.
    - intros k. now destruct (in_dec eq_dec k []). }
  split; [exact E|].
  unfold is_dict in *. rewrite E.
  apply NoDup_app; [exact U1 | now apply NoDup_filter |].
  intros k H1 H2. apply filter_In in H2. destruct H2 as [_ H2].
  now destruct (in_dec eq_dec k (map fst dict_1)).
Qed.

Lemma merged_dictionary_keys_witness :
  map fst (merged_dictionary Z.eq_dec [(1, 10); (2, 20)] [(2, 30); (3, 40)])
  = [1; 2; 3].
Proof.
  destruct (merged_dictionary_keys Z Z Z.eq_dec
              [(1, 10); (2, 20)] [(2, 30); (3, 40)]) as [E _].
  - unfold is_dict. cbn. repeat constructor; cbn; intuition discriminate.
  - unfold is_dict. cbn. repeat constructor; cbn; intuition discriminate.
  - rewrite E. reflexivity.
Defined.

(** ** The month of the latest measurement *)

Lemma latest_of_month_telescopes (readings : list Measurement)
    (year month : Z) (z : Measurement) :
  NoDup (map date readings) ->
  In z readings ->
  in_month year month z = true ->
  (forall m, In m readings -> in_month year month m = true -> date_le m z) ->
  exact_sum_of_deltas readings year month
  = Dec.thousandths (value z)
    - Dec.thousandths (carry_in readings year month).
Proof.
  intros U Hz Iz Mz. unfold exact_sum_of_deltas.
  pose proof (month_readings_In readings year month) as In_month.
  pose proof (month_readings_ordered readings year month) as S.
  destruct (month_readings readings year month) as [|first rest] eqn:M.
  - exfalso. apply (In_month z). now split.
  - rewrite (baseline_before_month _ _ _ _ _ M).
    fold (carry_in readings year month).
    rewrite exact_deltas_last. cbn [map].
    rewrite last_cons, (last_of_map (fun m => Dec.thousandths (value m))).
    replace (last rest first) with z; [reflexivity|].
    destruct (proj1 (In_month (last rest first)) (last_In_cons first rest))
      as [Hw Iw].
    apply (NoDup_dates readings); try assumption.
    apply date_le_antisym.
    + apply ordered_last; [exact S | apply In_month; now split].
    + now apply Mz.
Qed.

(** X17. For a loaded Service with one reading a day and values of the
    column type, the consumption of the month of last_measurement is that
    measurement's value minus the carry-in value of its month. *)
Theorem consumption_of_latest_month :
  forall table sid m,
    numeric_ok (relationship_measurements table sid) = true ->
    NoDup (map date (relationship_measurements table sid)) ->
    last_measurement (load_service table sid) = Some m ->
    exists d,
      fst (consumption_for_month (load_service table sid)
             (Date.year (date m)) (Date.month (date m)))
      = Returns d
      /\ Dec.thousandths d
         = Dec.thousandths (value m)
           - Dec.thousandths
               (carry_in (relationship_measurements table sid)
                  (Date.year (date m)) (Date.month (date m))).
Proof.
  intros table sid m N U L.
  set (readings := relationship_measurements table sid) in *.
  change (fst (consumption_for_month (load_service table sid)
                 (Date.year (date m)) (Date.month (date m))))
    with (consumption readings (Date.year (date m)) (Date.month (date m))).
  destruct (consumption_exact readings (Date.year (date m))
              (Date.month (date m)) N) as (d & Hd & _ & Td).
  exists d. split; [exact Hd|]. rewrite Td.
  rewrite last_measurement_hd in L. cbn [load_service measurements] in L.
  fold readings in L. unfold readings, relationship_measurements in L.
  apply hd_order_by_desc_max in L. destruct L as [Hm Mm].
  assert (P : forall x, In x readings
                        <-> In x (map measurement
                                    (filter (fun r => service_id r =? sid)
                                       table))).
  { intros x. unfold readings, relationship_measurements.
    split; apply Permutation_in;
      [apply order_by_desc_perm
      | apply Permutation_sym, order_by_desc_perm]. }
  apply latest_of_month_telescopes.
  - exact U.
  - now apply P.
  - apply in_month_spec. now split.
  - intros x Hx _. apply Mm. now apply P.
Qed.

Lemma consumption_of_latest_month_witness :
  exists d,
    fst (consumption_for_month (load_service example_table 1) 2025 2)
    = Returns d
    /\ Dec.thousandths d = 180000 - 120000.
Proof.
  destruct (consumption_of_latest_month example_table 1
              (reading 2025 2 20 (D 1800 (-1)))) as (d & Hd & Td).
  - reflexivity.
  - cbn. repeat constructor; cbn; intuition discriminate.
  - reflexivity.
  - exists d. split; [exact Hd | exact Td].
Defined.

(** ** The order of the common elements *)

Section CommonElementsOrder.

Context {A : Type} (eq_dec : forall x y : A, {x = y} + {x <> y}).

Let absent (ks : list A) (y : A) : bool :=
  if in_dec eq_dec y ks then false else true.

Lemma count_element_keys_list (c : list (A * nat)) (x : A) :
  map fst (count_element eq_dec x c)
  = if in_dec eq_dec x (map fst c) then map fst c else map fst c ++ [x].
Proof.
  induction c as [|[k0 n] c IH]; cbn [count_element map fst].
  - now destruct (in_dec eq_dec x []).
  - destruct (in_dec eq_dec x (k0 :: map fst c)) as [I|I];
      destruct (eq_dec x k0) as [->|N]; cbn [map fst].
    + reflexivity.
    + rewrite IH. destruct I as [E|I]; [congruence|].
      now destruct (in_dec eq_dec x (map fst c)).
    + exfalso. apply I. now left.
    + rewrite IH.
      destruct (in_dec eq_dec x (map fst c)) as [J|J]; [|reflexivity].
      exfalso. apply I. now right.
Qed.

Lemma absent_known (ks : list A) (x : A) (l : list A) :
  In x ks ->
  filter (absent ks)
    (filter (fun y => if eq_dec x y then false else true) l)
  = filter (absent ks) l.
Proof.
  intros H. subst absent. induction l as [|y l IH]; cbn; [reflexivity|].
  destruct (eq_dec x y) as [<-|N]; cbn; rewrite IH.
  - now destruct (in_dec eq_dec x ks).
  - reflexivity.
Qed.

Lemma absent_new (ks : list A) (x : A) (l : list A) :
  filter (absent (ks ++ [x])) l
  = filter (absent ks)
      (filter (fun y => if eq_dec x y then false else true) l).
Proof.
  subst absent. induction l as [|y l IH]; cbn; [reflexivity|].
  rewrite IH.
  destruct (eq_dec x y) as [<-|N]; cbn.
  - destruct (in_dec eq_dec x (ks ++ [x])) as [_|J]; [reflexivity|].
    exfalso. apply J. apply in_or_app. right. now left.
  - destruct (in_dec eq_dec y (ks ++ [x])) as [J|J],
             (in_dec eq_dec y ks) as [J'|J']; try reflexivity.
    + apply in_app_or in J. destruct J as [J|[E|[]]]; [contradiction|].
      congruence.
    + exfalso. apply J. apply in_or_app. now left.
Qed.

Lemma Counter_keys_loop (l : list A) (c : list (A * nat)) :
  map fst (fold_left (fun c x => count_element eq_dec x c) l c)
  = map fst c ++ filter (absent (map fst c)) (first_occurrences eq_dec l).
Proof.
  revert c. induction l as [|x l IH]; intros c; cbn [fold_left].
  - cbn. now rewrite app_nil_r.
  - rewrite IH, count_element_keys_list. cbn [first_occurrences filter].
    unfold absent at 2.
    destruct (in_dec eq_dec x (map fst c)) as [I|I].
    + now rewrite absent_known.
    + rewrite <- app_assoc. cbn [app]. now rewrite absent_new.
Qed.

(** A Counter holds the elements in the order of their first occurrence. *)
Lemma Counter_keys (l : list A) :
  map fst (Counter eq_dec l) = first_occurrences eq_dec l.
Proof.
  unfold Counter. rewrite Counter_keys_loop. cbn [map app].
  subst absent. cbn. apply filter_true.
Qed.

Lemma flat_map_ext_In {B : Type} (f g : A -> list B) (l : list A) :
  (forall x, In x l -> f x = g x) -> flat_map f l = flat_map g l.
Proof.
  induction l as [|x l IH]; intros H; cbn; [reflexivity|].
  rewrite (H x) by now left. f_equal. apply IH. intros; apply H; now right.
Qed.

Lemma elements_counter_and (c1 c2 : list (A * nat)) :
  NoDup (map fst c1) ->
  elements (counter_and eq_dec c1 c2)
  = flat_map
      (fun x => repeat x (Nat.min (counter_get eq_dec c1 x)
                                  (counter_get eq_dec c2 x)))
      (map fst c1).
Proof.
  unfold elements.
  induction c1 as [|[x n] c1 IH]; intros U; [reflexivity|].
  cbn [map fst] in U. inversion U as [|? ? Nx U1]; subst.
  cbn [counter_and map fst flat_map counter_get].
  destruct (eq_dec x x) as [_|N]; [|congruence].
  set (newcount := if Nat.ltb n (counter_get eq_dec c2 x) then n
                   else counter_get eq_dec c2 x).
  assert (Hn : newcount = Nat.min n (counter_get eq_dec c2 x)).
  { unfold newcount.
    destruct (Nat.ltb_spec n (counter_get eq_dec c2 x)); lia. }
  assert (Rest : flat_map
                   (fun y => repeat y
                      (Nat.min (if eq_dec y x then n
                                else counter_get eq_dec c1 y)
                               (counter_get eq_dec c2 y)))
                   (map fst c1)
                 = flat_map
                     (fun y => repeat y
                        (Nat.min (counter_get eq_dec c1 y)
                                 (counter_get eq_dec c2 y)))
                     (map fst c1)).
  { apply flat_map_ext_In. intros y Hy.
    destruct (eq_dec y x) as [->|_]; [contradiction | reflexivity]. }
  rewrite Rest, <- (IH U1), <- Hn.
  destruct (Nat.ltb_spec 0 newcount) as [P|Z0].
  - reflexivity.
  - replace newcount with 0%nat by lia. reflexivity.
Qed.

Lemma common_in_order (l1 l2 : list A) :
  lists_common_elements eq_dec l1 l2
  = flat_map
      (fun x => repeat x (Nat.min (count_occ eq_dec l1 x)
                                  (count_occ eq_dec l2 x)))
      (first_occurrences eq_dec l1).
Proof.
  unfold lists_common_elements.
  destruct (Counter_spec eq_dec l1) as [U1 G1].
  destruct (Counter_spec eq_dec l2) as [_ G2].
  rewrite (elements_counter_and _ _ U1), Counter_keys.
  apply flat_map_ext_In. intros x _. now rewrite G1, G2.
Qed.

End CommonElementsOrder.

(** X18. lists_common_elements lists the common elements in the order in
    which they first occur in the first list, the copies of an element side
    by side. *)
Theorem common_elements_in_first_list_order :
  forall (A : Type) (eq_dec : forall x y : A, {x = y} + {x <> y})
         (list_1 list_2 : list A),
    lists_common_elements eq_dec list_1 list_2
    = flat_map
        (fun x => repeat x (Nat.min (count_occ eq_dec list_1 x)
                                    (count_occ eq_dec list_2 x)))
        (first_occurrences eq_dec list_1).
Proof.
  intros. apply common_in_order.
Qed.

(** * Precision, range and the store *)

(** ** Decimal arithmetic on the grid of any exponent *)

Lemma ndigits_le (c k : Z) : 1 <= k -> c < 10 ^ k -> Dec.ndigits c <= k.
Proof.
  intros Hk Hc. now apply ndigits_fuel_le.
Qed.

Lemma ndigits_pos (c : Z) : 1 <= Dec.ndigits c.
Proof.
  apply ndigits_fuel_pos.
Qed.

(** A coefficient of at most 28 digits is kept as it is, wherever the
    exponent lies between Etiny and Etop. *)
Lemma fix_kept (s : bool) (c e : Z) :
  0 < c < 10 ^ 28 -> -1000026 <= e <= 999972 ->
  Dec.fix_ s c e = Returns (Dec.Finite s (Z.to_N c) e).
Proof.
  intros Hc He. unfold Dec.fix_.
  destruct (Z.eqb_spec c 0) as [->|_]; [lia|].
  assert (Hd : Dec.ndigits c <= 28) by (apply ndigits_le; [lia | apply Hc]).
  unfold Dec.Etop, Dec.Etiny, Dec.Emax, Dec.Emin, Dec.prec.
  destruct (Z.ltb_spec (999999 - 28 + 1) (Dec.ndigits c + e - 28)); [lia|].
  destruct (Z.ltb_spec e (Z.max (Dec.ndigits c + e - 28) (-999999 - 28 + 1)));
    [lia | reflexivity].
Qed.

(** Within the precision, adding values of one grid is exact. *)
Lemma add_exact_at (g : Z) (a b : Dec.t) :
  -1000026 <= g <= 0 ->
  Dec.on_grid_at g a = true -> Dec.on_grid_at g b = true ->
  Z.abs (Dec.units g a + Dec.units g b) < 10 ^ 28 ->
  exists d, Dec.add a b = Returns d
            /\ Dec.on_grid_at g d = true
            /\ Dec.units g d = Dec.units g a + Dec.units g b.
Proof.
  intros Hg.
  destruct a as [s1 c1 e1| |], b as [s2 c2 e2| |]; try discriminate.
  cbn [Dec.on_grid_at Dec.units]. rewrite !Z.leb_le. intros G1 G2 B.
  unfold Dec.add; cbn [Dec.check_nans].
  set (e := Z.min e1 e2).
  set (z := Dec.signed s1 c1 * 10 ^ (e1 - e) + Dec.signed s2 c2 * 10 ^ (e2 - e)).
  assert (Ge : g <= e) by (unfold e; lia).
  assert (Hz : z * 10 ^ (e - g)
               = Dec.signed s1 c1 * 10 ^ (e1 - g)
                 + Dec.signed s2 c2 * 10 ^ (e2 - g)).
  { unfold z.
    replace (e1 - g) with ((e1 - e) + (e - g)) by lia.
    replace (e2 - g) with ((e2 - e) + (e - g)) by lia.
    rewrite (Z.pow_add_r 10 (e1 - e) (e - g)),
      (Z.pow_add_r 10 (e2 - e) (e - g)) by (unfold e; lia).
    ring. }
  rewrite <- Hz in B |- *.
  pose proof (pow10_pos (e - g)) as P.
  destruct (Z.eqb_spec z 0) as [Z0|Zn].
  - rewrite Z0. cbn [Z.abs]. unfold Dec.fix_. cbn [Z.eqb].
    eexists; split; [reflexivity|].
    cbn [Dec.on_grid_at Dec.units].
    split.
    + apply Z.leb_le. unfold Dec.Etiny, Dec.Emax, Dec.Emin, Dec.prec. lia.
    + unfold Dec.signed. now destruct (s1 && s2).
  - specialize (P ltac:(lia)).
    rewrite Z.abs_mul, (Z.abs_eq (10 ^ (e - g))) in B by lia.
    assert (Hz0 : 1 <= Z.abs z) by lia.
    assert (Hc : 0 < Z.abs z < 10 ^ 28) by nia.
    assert (He : e - g < 28).
    { apply (Z.pow_lt_mono_r_iff 10); [lia | lia | nia]. }
    rewrite fix_kept by lia.
    eexists; split; [reflexivity|].
    cbn [Dec.on_grid_at Dec.units].
    split; [now apply Z.leb_le|].
    now rewrite signed_abs.
Qed.

Lemma sub_exact_at (g : Z) (a b : Dec.t) :
  -1000026 <= g <= 0 ->
  Dec.on_grid_at g a = true -> Dec.on_grid_at g b = true ->
  Z.abs (Dec.units g a - Dec.units g b) < 10 ^ 28 ->
  exists d, Dec.sub a b = Returns d
            /\ Dec.on_grid_at g d = true
            /\ Dec.units g d = Dec.units g a - Dec.units g b.
Proof.
  intros Hg Ga Gb B.
  assert (Hn : Dec.units g (Dec.copy_negate b) = - Dec.units g b).
  { destruct b as [s c e| |]; try discriminate.
    cbn [Dec.copy_negate Dec.units]. unfold Dec.signed.
    destruct s; cbn [negb]; ring. }
  assert (Gn : Dec.on_grid_at g (Dec.copy_negate b) = true)
    by (destruct b; [exact Gb | discriminate | discriminate]).
  destruct (add_exact_at g a (Dec.copy_negate b) Hg Ga Gn) as (d & Hd & Gd & Td).
  { rewrite Hn. now replace (Dec.units g a + - Dec.units g b)
      with (Dec.units g a - Dec.units g b) by ring. }
  exists d. split; [|split; [exact Gd | rewrite Td, Hn; ring]].
  unfold Dec.sub.
  destruct a as [? ? ?| |], b as [? ? ?| |]; try discriminate. exact Hd.
Qed.

Lemma fits_at_spec (g : Z) (a : Dec.t) :
  Dec.fits_at g a = true ->
  Dec.on_grid_at g a = true /\ Z.abs (Dec.units g a) < 10 ^ 27.
Proof.
  unfold Dec.fits_at.
  now rewrite andb_true_iff, Z.ltb_lt.
Qed.

(** Where the values fit the precision, the Decimal sum of the deltas is the
    exact sum: no operation raises and none rounds. *)
Lemma sum_exact_at (g : Z) (l : list Measurement) (total prev : Dec.t)
    (k : Z) :
  -1000026 <= g <= 0 ->
  Forall (fun m => Dec.fits_at g (value m) = true) l ->
  Dec.fits_at g prev = true ->
  Dec.on_grid_at g total = true ->
  Dec.units g total = Dec.units g prev + k ->
  Z.abs k <= 10 ^ 27 ->
  exists d,
    sum_from total (deltas prev l) = Returns d
    /\ Dec.on_grid_at g d = true
    /\ Dec.units g d
       = Dec.units g total
         + exact_deltas (Dec.units g prev)
             (map (fun m => Dec.units g (value m)) l).
Proof.
  intros Hg Hl. revert total prev.
  induction Hl as [|m l Hm Hl IH]; intros total prev Hp Gt Tt Hk.
  - exists total. cbn. repeat split; [assumption | ring].
  - apply fits_at_spec in Hp. destruct Hp as [Gp Bp].
    pose proof (fits_at_spec _ _ Hm) as [Gm Bm].
    change (10 ^ 27) with 1000000000000000000000000000 in *.
    destruct (sub_exact_at g (value m) prev Hg Gm Gp) as (d1 & Hd1 & Gd1 & Td1).
    { change (10 ^ 28) with 10000000000000000000000000000. lia. }
    destruct (add_exact_at g total d1 Hg Gt Gd1) as (t' & Ht' & Gt' & Tt').
    { change (10 ^ 28) with 10000000000000000000000000000. lia. }
    destruct (IH t' (value m) Hm Gt') as (d & Hd & Gd & Td); [lia | lia |].
    exists d. split; [|split; [exact Gd|]].
    + unfold sum_from in *. cbn [deltas fold_left].
      rewrite Hd1. cbn [bind]. rewrite Ht'. exact Hd.
    + cbn [map exact_deltas]. lia.
Qed.

Lemma fits_precision_forall (g : Z) (readings : list Measurement) :
  fits_precision g readings = true ->
  forall m, In m readings -> Dec.fits_at g (value m) = true.
Proof.
  unfold fits_precision. now rewrite forallb_forall.
Qed.

Lemma zero_fits_at (g : Z) : g <= 0 -> Dec.fits_at g Dec.zero = true.
Proof.
  intros Hg. unfold Dec.fits_at, Dec.zero.
  cbn [Dec.on_grid_at Dec.units Dec.signed Z.of_N Z.mul Z.abs].
  apply andb_true_iff. split; [now apply Z.leb_le | reflexivity].
Qed.

Lemma baseline_fits_at (g : Z) (p : Measurement -> bool)
    (readings : list Measurement) :
  g <= 0 ->
  fits_precision g readings = true ->
  Dec.fits_at g (value_or_zero (latest p readings)) = true.
Proof.
  intros Hg H. destruct (latest p readings) as [b|] eqn:L.
  - apply latest_some in L. now apply (fits_precision_forall _ _ H).
  - now apply zero_fits_at.
Qed.

(** The method where the values fit the precision: it returns, and what it
    returns is the exact sum of the deltas. *)
Lemma consumption_exact_at (g : Z) (readings : list Measurement)
    (year month : Z) :
  -1000026 <= g <= 0 ->
  fits_precision g readings = true ->
  exists d,
    consumption readings year month = Returns d
    /\ Dec.on_grid_at g d = true
    /\ Dec.units g d = exact_sum_of_deltas_at g readings year month.
Proof.
  intros Hg H. rewrite consumption_sum_of_deltas.
  unfold sum_of_deltas, exact_sum_of_deltas_at.
  pose proof (month_readings_In readings year month) as In_month.
  assert (Z0 : Dec.units g Dec.zero = 0) by reflexivity.
  assert (G0 : Dec.on_grid_at g Dec.zero = true)
    by (apply Z.leb_le; lia).
  destruct (month_readings readings year month) as [|m l].
  - exists Dec.zero. now repeat split.
  - set (c := value_or_zero (latest_before (date m) readings)).
    assert (Hc : Dec.fits_at g c = true)
      by (apply baseline_fits_at; [lia | exact H]).
    destruct (sum_exact_at g (m :: l) Dec.zero c (- Dec.units g c) Hg)
      as (d & Hd & Gd & Td).
    + rewrite Forall_forall. intros x Hx.
      apply (fits_precision_forall _ _ H). now apply In_month.
    + exact Hc.
    + exact G0.
    + rewrite Z0. lia.
    + apply fits_at_spec in Hc.
      change (10 ^ 27) with 1000000000000000000000000000 in *. lia.
    + exists d. repeat split; [exact Hd | exact Gd |].
      rewrite Td, Z0. lia.
Qed.

(** ** Away from the exponent limit nothing is raised *)

Lemma pow10_le (a b : Z) : 0 <= a <= b -> 10 ^ a <= 10 ^ b.
Proof.
  intros H. apply Z.pow_le_mono_r; lia.
Qed.

Lemma pow10_lt (a b : Z) : 0 <= a < b -> 10 ^ a < 10 ^ b.
Proof.
  intros H. apply Z.pow_lt_mono_r; lia.
Qed.

Lemma pow10_succ (a : Z) : 0 <= a -> 10 ^ (a + 1) = 10 * 10 ^ a.
Proof.
  intros H. rewrite <- Z.pow_succ_r by exact H. f_equal.
Qed.

(** The quotient that [fix_] rounds to, for a coefficient of [nd] digits of
    which [k] are dropped: nothing, or at most 10^(nd - k). *)
Lemma rounded_bound (c nd k : Z) :
  0 < c < 10 ^ nd -> 1 <= nd -> 0 < k ->
  let q := c / 10 ^ k in
  let r := c mod 10 ^ k in
  let half := 5 * 10 ^ (k - 1) in
  let q' := if (half <? r) || ((r =? half) && Z.odd q) then q + 1 else q in
  0 <= q' /\ (q' = 0 \/ (k <= nd /\ q' <= 10 ^ (nd - k))).
Proof.
  intros Hc Hnd Hk q r half q'.
  pose proof (pow10_pos k ltac:(lia)) as Pk.
  pose proof (pow10_pos (k - 1) ltac:(lia)) as Pk1.
  assert (Ek : 10 ^ k = 10 * 10 ^ (k - 1)).
  { rewrite <- pow10_succ by lia. f_equal. lia. }
  assert (Hq0 : 0 <= q) by (apply Z.div_pos; lia).
  assert (Hq' : q <= q' <= q + 1).
  { unfold q'. destruct ((half <? r) || ((r =? half) && Z.odd q)); lia. }
  split; [lia|].
  destruct (Z_le_gt_dec k nd) as [Le|Gt].
  - right. split; [exact Le|].
    assert (q < 10 ^ (nd - k)); [|lia].
    apply Z.div_lt_upper_bound; [lia|].
    rewrite <- Z.pow_add_r by lia.
    now replace (k + (nd - k)) with nd by lia.
  - left.
    assert (Hs : c < 10 ^ (k - 1)).
    { pose proof (pow10_le nd (k - 1) ltac:(lia)). lia. }
    assert (Eq : q = 0) by (apply Z.div_small; lia).
    assert (Er : r = c) by (apply Z.mod_small; lia).
    unfold q'. rewrite Er.
    destruct (Z.ltb_spec half c) as [L|_]; [unfold half in L; lia|].
    destruct (Z.eqb_spec c half) as [E|_]; [unfold half in E; lia|].
    exact Eq.
Qed.

(** Rounding to the context keeps a value finite as long as its magnitude
    is below 10^Emax, and raises the magnitude by at most one digit
    place. *)
Lemma fix_below (s : bool) (c e n : Z) :
  0 < c -> Dec.ndigits c + e <= n -> n <= 999999 ->
  exists c' e',
    Dec.fix_ s c e = Returns (Dec.Finite s c' e')
    /\ (Z.of_N c' = 0 \/ Dec.ndigits (Z.of_N c') + e' <= n + 1).
Proof.
  intros Hc Hn Hmax. unfold Dec.fix_.
  destruct (Z.eqb_spec c 0) as [->|_]; [lia|].
  cbv zeta.
  unfold Dec.Etop, Dec.Etiny, Dec.Emax, Dec.Emin, Dec.prec.
  change (999999 - 28 + 1) with 999972.
  change (-999999 - 28 + 1) with (-1000026).
  pose proof (ndigits_spec c Hc) as Hd.
  pose proof (ndigits_pos c) as Np.
  set (nd := Dec.ndigits c) in *.
  destruct (Z.ltb_spec 999972 (nd + e - 28)) as [|_]; [lia|].
  set (em := Z.max (nd + e - 28) (-1000026)).
  destruct (Z.ltb_spec e em) as [Hlt|Hge].
  - set (k := em - e). assert (Hk : 0 < k) by (unfold k; lia).
    destruct (rounded_bound c nd k ltac:(lia) Np Hk) as [Q0 Q].
    cbv zeta in Q0, Q.
    set (q' := if (5 * 10 ^ (k - 1) <? c mod 10 ^ k)
                  || ((c mod 10 ^ k =? 5 * 10 ^ (k - 1))
                      && Z.odd (c / 10 ^ k))
               then c / 10 ^ k + 1 else c / 10 ^ k) in *.
    change (10 ^ 28) with 10000000000000000000000000000.
    destruct (Z.leb_spec 10000000000000000000000000000 q') as [Big|Small].
    + destruct Q as [Q|[Le Q]]; [lia|].
      assert (H28 : 28 <= nd - k).
      { destruct (Z_le_gt_dec 28 (nd - k)) as [|G]; [assumption|].
        pose proof (pow10_lt (nd - k) 28 ltac:(lia)) as P.
        change (10 ^ 28) with 10000000000000000000000000000 in P. lia. }
      assert (Ek : nd - k = 28) by (unfold k, em in *; lia).
      rewrite Ek in Q.
      change (10 ^ 28) with 10000000000000000000000000000 in Q.
      destruct (Z.ltb_spec 999972 (em + 1)) as [|_];
        [unfold k, em in *; lia|].
      exists (Z.to_N (q' / 10)), (em + 1). split; [reflexivity|].
      right.
      assert (0 <= q' / 10) by (apply Z.div_pos; lia).
      rewrite Z2N.id by assumption.
      assert (Dec.ndigits (q' / 10) <= 28).
      { apply ndigits_le; [lia|].
        change (10 ^ 28) with 10000000000000000000000000000.
        apply Z.div_lt_upper_bound; lia. }
      unfold k, em in *. lia.
    + exists (Z.to_N q'), em. split; [reflexivity|].
      rewrite Z2N.id by exact Q0.
      destruct Q as [Q|[Le Q]]; [now left | right].
      assert (Dec.ndigits q' <= nd - k + 1).
      { apply ndigits_le; [lia|].
        rewrite pow10_succ by lia.
        pose proof (pow10_pos (nd - k) ltac:(lia)). lia. }
      unfold k in *. lia.
  - exists (Z.to_N c), e. split; [reflexivity|].
    right. rewrite Z2N.id by lia. fold nd. lia.
Qed.

Lemma below_spec (n : Z) (a : Dec.t) :
  Dec.below n a = true <->
  exists s c e,
    a = Dec.Finite s c e
    /\ (Z.of_N c = 0 \/ Dec.ndigits (Z.of_N c) + e <= n).
Proof.
  split.
  - destruct a as [s c e| |]; try discriminate.
    cbn [Dec.below]. rewrite orb_true_iff, Z.eqb_eq, Z.leb_le.
    intros H. now exists s, c, e.
  - intros (s & c & e & -> & H).
    cbn [Dec.below]. now rewrite orb_true_iff, Z.eqb_eq, Z.leb_le.
Qed.

Lemma below_mono (n n' : Z) (a : Dec.t) :
  n <= n' -> Dec.below n a = true -> Dec.below n' a = true.
Proof.
  intros Hn. rewrite !below_spec.
  intros (s & c & e & -> & H). exists s, c, e. split; [reflexivity | lia].
Qed.

Lemma below_finite (n : Z) (a : Dec.t) :
  Dec.below n a = true -> Dec.is_finite a = true.
Proof.
  destruct a; [reflexivity | discriminate | discriminate].
Qed.

(** A coefficient brought to a lower exponent. *)
Lemma scaled_bound (c : N) (e e' n : Z) :
  e' <= e ->
  Z.of_N c = 0 \/ Dec.ndigits (Z.of_N c) + e <= n ->
  0 <= Z.of_N c * 10 ^ (e - e')
  /\ (Z.of_N c * 10 ^ (e - e') = 0
      \/ (e' < n /\ Z.of_N c * 10 ^ (e - e') < 10 ^ (n - e'))).
Proof.
  intros He H.
  pose proof (pow10_pos (e - e') ltac:(lia)) as P.
  pose proof (N2Z.is_nonneg c) as C0.
  split; [nia|].
  destruct (Z.eq_dec (Z.of_N c) 0) as [E|N0]; [left; rewrite E; lia|].
  destruct H as [H|H]; [contradiction|]. right.
  pose proof (ndigits_spec (Z.of_N c) ltac:(lia)) as [_ Hi].
  pose proof (ndigits_pos (Z.of_N c)) as Np.
  set (nd := Dec.ndigits (Z.of_N c)) in *.
  split; [lia|].
  apply Z.lt_le_trans with (10 ^ nd * 10 ^ (e - e')); [nia|].
  rewrite <- Z.pow_add_r by lia.
  apply pow10_le. lia.
Qed.

(** Below 10^n, with n short of Emax, an addition returns a finite value
    below 10^(n + 2). *)
Lemma add_below (n : Z) (a b : Dec.t) :
  Dec.below n a = true -> Dec.below n b = true -> n <= 999998 ->
  exists d, Dec.add a b = Returns d /\ Dec.below (n + 2) d = true.
Proof.
  rewrite !below_spec.
  intros (s1 & c1 & e1 & -> & H1) (s2 & c2 & e2 & -> & H2) Hn.
  unfold Dec.add; cbn [Dec.check_nans].
  set (e := Z.min e1 e2).
  destruct (scaled_bound c1 e1 e n ltac:(unfold e; lia) H1) as [P1 B1].
  destruct (scaled_bound c2 e2 e n ltac:(unfold e; lia) H2) as [P2 B2].
  set (m1 := Z.of_N c1 * 10 ^ (e1 - e)) in *.
  set (m2 := Z.of_N c2 * 10 ^ (e2 - e)) in *.
  set (z := Dec.signed s1 c1 * 10 ^ (e1 - e) + Dec.signed s2 c2 * 10 ^ (e2 - e)).
  assert (Hz : Z.abs z <= m1 + m2).
  { unfold z, Dec.signed, m1, m2 in *. destruct s1, s2; lia. }
  set (s := if z =? 0 then s1 && s2 else z <? 0). clearbody s.
  destruct (Z.eq_dec z 0) as [Z0|Zn].
  - rewrite Z0. cbn [Z.abs]. unfold Dec.fix_. cbn [Z.eqb].
    eexists. split; [reflexivity|]. reflexivity.
  - assert (B : e < n /\ Z.abs z < 10 ^ (n - e + 1)).
    { rewrite pow10_succ.
      - pose proof (pow10_pos (n - e)) as P.
        destruct B1 as [B1|[L1 B1]], B2 as [B2|[L2 B2]];
          (split; [lia|]); try specialize (P ltac:(lia)); lia.
      - destruct B1 as [B1|[L1 B1]], B2 as [B2|[L2 B2]]; lia. }
    destruct B as [Le B].
    assert (Hd : Dec.ndigits (Z.abs z) + e <= n + 1).
    { pose proof (ndigits_le (Z.abs z) (n - e + 1) ltac:(lia) B). lia. }
    destruct (fix_below s (Z.abs z) e (n + 1) ltac:(lia) Hd ltac:(lia))
      as (c' & e' & -> & H).
    eexists. split; [reflexivity|].
    apply below_spec. exists s, c', e'. split; [reflexivity | lia].
Qed.

Lemma sub_below (n : Z) (a b : Dec.t) :
  Dec.below n a = true -> Dec.below n b = true -> n <= 999998 ->
  exists d, Dec.sub a b = Returns d /\ Dec.below (n + 2) d = true.
Proof.
  intros Ha Hb Hn.
  assert (Hb' : Dec.below n (Dec.copy_negate b) = true)
    by (destruct b; [exact Hb | discriminate | discriminate]).
  destruct (add_below n a (Dec.copy_negate b) Ha Hb' Hn) as (d & Hd & Bd).
  exists d. split; [|exact Bd].
  unfold Dec.sub.
  destruct a as [? ? ?| |], b as [? ? ?| |]; try discriminate. exact Hd.
Qed.

(** The loop on values below 10^n: each reading costs at most two digit
    places of headroom. *)
Lemma sum_below (n : Z) (l : list Measurement) (total prev : Dec.t)
    (t : Z) :
  Forall (fun m => Dec.below n (value m) = true) l ->
  Dec.below n prev = true ->
  Dec.below t total = true ->
  n + 2 <= t ->
  t + 2 * Z.of_nat (length l) <= 1000000 ->
  exists d,
    sum_from total (deltas prev l) = Returns d
    /\ Dec.below (t + 2 * Z.of_nat (length l)) d = true.
Proof.
  intros Hl. revert total prev t.
  induction Hl as [|m l Hm Hl IH]; intros total prev t Hp Ht Hnt Hmax.
  - exists total. split; [reflexivity|].
    apply below_mono with t; [cbn; lia | exact Ht].
  - cbn [length] in *. rewrite Nat2Z.inj_succ in *.
    destruct (sub_below n (value m) prev Hm Hp ltac:(lia)) as (d1 & Hd1 & B1).
    apply (below_mono _ t) in B1; [|lia].
    destruct (add_below t total d1 Ht B1 ltac:(lia)) as (t' & Ht' & Bt').
    destruct (IH t' (value m) (t + 2) Hm Bt' ltac:(lia) ltac:(lia))
      as (d & Hd & Bd).
    exists d. split.
    + unfold sum_from in *. cbn [deltas fold_left].
      rewrite Hd1. cbn [bind]. rewrite Ht'. exact Hd.
    + apply below_mono with (t + 2 + 2 * Z.of_nat (length l)); [lia | exact Bd].
Qed.

Lemma magnitudes_below_forall (n : Z) (readings : list Measurement) :
  magnitudes_below n readings = true ->
  forall m, In m readings -> Dec.below n (value m) = true.
Proof.
  unfold magnitudes_below. now rewrite forallb_forall.
Qed.

Lemma filter_length_le {A : Type} (p : A -> bool) (l : list A) :
  (length (filter p l) <= length l)%nat.
Proof.
  induction l as [|x l IH]; simpl; [lia|].
  destruct (p x); simpl; lia.
Qed.

Lemma month_readings_length (readings : list Measurement) (year month : Z) :
  (length (month_readings readings year month) <= length readings)%nat.
Proof.
  unfold month_readings.
  rewrite <- (Permutation_length (sorted_perm readings)).
  apply filter_length_le.
Qed.

(** The method on finite values away from the exponent limit: it returns a
    finite Decimal. *)
Lemma consumption_below (readings : list Measurement) (year month n : Z) :
  n + 2 * Z.of_nat (length readings) + 2 <= 1000000 ->
  magnitudes_below n readings = true ->
  exists d,
    consumption readings year month = Returns d
    /\ Dec.is_finite d = true.
Proof.
  intros Hn H. rewrite consumption_sum_of_deltas. unfold sum_of_deltas.
  pose proof (month_readings_In readings year month) as In_month.
  pose proof (month_readings_length readings year month) as Len.
  destruct (month_readings readings year month) as [|m l].
  - exists Dec.zero. now split.
  - set (c := value_or_zero (latest_before (date m) readings)).
    assert (Hc : Dec.below n c = true).
    { unfold c, latest_before.
      destruct (latest _ readings) as [b|] eqn:L; [|reflexivity].
      apply latest_some in L. now apply (magnitudes_below_forall _ _ H). }
    destruct (sum_below n (m :: l) Dec.zero c (n + 2)) as (d & Hd & Bd).
    + rewrite Forall_forall. intros x Hx.
      apply (magnitudes_below_forall _ _ H). now apply In_month.
    + exact Hc.
    + reflexivity.
    + lia.
    + lia.
    + exists d. split; [exact Hd|]. now apply below_finite in Bd.
Qed.

(** ** The method over the store *)

Lemma bind_value {A B : Type} (m : Py.M A) (k : A -> Py.M B)
    (h h' : Py.store) (a : A) :
  m h = (Py.Value a, h') -> Py.bind m k h = k a h'.
Proof.
  intros H. unfold Py.bind. now rewrite H.
Qed.

Lemma read_at (h : Py.store) (r : Py.ref) (o : Py.object) :
  nth_error h r = Some o -> Py.read r h = (Py.Value o, h).
Proof.
  intros H. unfold Py.read. now rewrite H.
Qed.

Lemma get_measurements_at (h : Py.store) (self l : Py.ref) :
  nth_error h self = Some (Py.ServiceObject l) ->
  Py.get_measurements self h = (Py.Value l, h).
Proof.
  intros H. unfold Py.get_measurements.
  now rewrite (bind_value _ _ _ _ _ (read_at _ _ _ H)).
Qed.

Lemma get_items_at (h : Py.store) (l : Py.ref) (items : list Py.ref) :
  nth_error h l = Some (Py.ListObject items) ->
  Py.get_items l h = (Py.Value items, h).
Proof.
  intros H. unfold Py.get_items.
  now rewrite (bind_value _ _ _ _ _ (read_at _ _ _ H)).
Qed.

Lemma get_date_at (h : Py.store) (r : Py.ref) (m : Measurement) :
  nth_error h r = Some (Py.MeasurementObject m) ->
  Py.get_date r h = (Py.Value (date m), h).
Proof.
  intros H. unfold Py.get_date.
  now rewrite (bind_value _ _ _ _ _ (read_at _ _ _ H)).
Qed.

Lemma get_value_at (h : Py.store) (r : Py.ref) (m : Measurement) :
  nth_error h r = Some (Py.MeasurementObject m) ->
  Py.get_value r h = (Py.Value (value m), h).
Proof.
  intros H. unfold Py.get_value.
  now rewrite (bind_value _ _ _ _ _ (read_at _ _ _ H)).
Qed.

(** Allocation leaves the objects that exist where they are. *)
Lemma nth_error_extend (h e : Py.store) (r : Py.ref) (o : Py.object) :
  nth_error h r = Some o -> nth_error (h ++ e) r = Some o.
Proof.
  intros H. rewrite nth_error_app1; [exact H|].
  apply nth_error_Some. congruence.
Qed.

Lemma readings_at_extend (h e : Py.store) (items : list Py.ref)
    (rs : list Measurement) :
  Py.readings_at h items rs -> Py.readings_at (h ++ e) items rs.
Proof.
  unfold Py.readings_at. intros H.
  induction H as [|r m items rs Hr _ IH]; constructor.
  - now apply nth_error_extend.
  - exact IH.
Qed.

Lemma readings_at_rev (h : Py.store) (items : list Py.ref)
    (rs : list Measurement) :
  Py.readings_at h items rs -> Py.readings_at h (rev items) (rev rs).
Proof.
  unfold Py.readings_at. intros H.
  induction H as [|r m items rs Hr _ IH]; cbn [rev].
  - constructor.
  - apply Forall2_app; [exact IH | now repeat constructor].
Qed.

(** Reading the keys changes nothing. *)
Lemma keys_at (h : Py.store) (items : list Py.ref) (rs : list Measurement) :
  Py.readings_at h items rs ->
  Py.keys items h = (Py.Value (combine (map date rs) items), h).
Proof.
  unfold Py.readings_at. intros H.
  induction H as [|r m items rs Hr _ IH]; cbn [Py.keys map combine].
  - reflexivity.
  - rewrite (bind_value _ _ _ _ _ (get_date_at _ _ _ Hr)).
    now rewrite (bind_value _ _ _ _ _ IH).
Qed.

(** Sorting the references by their keys sorts the readings they stand
    for. *)
Lemma insert_keyed_at (h : Py.store) (r : Py.ref) (m : Measurement)
    (ks : list (Date.t * Py.ref)) (rs : list Measurement) :
  nth_error h r = Some (Py.MeasurementObject m) ->
  Py.readings_at h (map snd ks) rs ->
  map fst ks = map date rs ->
  Py.readings_at h (map snd (Py.insert_keyed (date m, r) ks)) (insert m rs)
  /\ map fst (Py.insert_keyed (date m, r) ks) = map date (insert m rs).
Proof.
  unfold Py.readings_at. intros Hr. revert rs.
  induction ks as [|[d x] ks IH]; intros rs H E.
  - inversion H; subst. cbn. split; [now repeat constructor | reflexivity].
  - destruct rs as [|y rs]; [inversion H|].
    cbn [map fst snd] in H, E. inversion H; subst. injection E as Ed Ek.
    subst d. cbn [Py.insert_keyed insert fst].
    destruct (Date.ltb (date y) (date m)).
    + destruct (IH rs) as [IH1 IH2]; try assumption.
      cbn [map fst snd]. split; [now constructor | congruence].
    + cbn [map fst snd]. split; [now repeat constructor | congruence].
Qed.

Lemma sort_keyed_at (h : Py.store) (items : list Py.ref)
    (rs : list Measurement) :
  Py.readings_at h items rs ->
  Py.readings_at h
    (map snd (Py.sort_keyed (combine (map date rs) items))) (sorted rs)
  /\ map fst (Py.sort_keyed (combine (map date rs) items))
     = map date (sorted rs).
Proof.
  intros H. unfold Py.readings_at in H.
  induction H as [|r m items rs Hr _ IH];
    cbn [map combine Py.sort_keyed sorted].
  - split; [constructor | reflexivity].
  - destruct IH as [IH1 IH2]. now apply insert_keyed_at.
Qed.

(** The search for the baseline reads and changes nothing. *)
Lemma first_before_at (h : Py.store) (r : Py.ref) (m : Measurement)
    (xs : list Py.ref) (rs : list Measurement) :
  nth_error h r = Some (Py.MeasurementObject m) ->
  Py.readings_at h xs rs ->
  Py.bind (Py.first_before r xs)
    (fun prev => match prev with
                 | Some p => Py.get_value p
                 | None => Py.ret Dec.zero
                 end) h
  = (Py.Value
       (value_or_zero (find (fun x => Date.ltb (date x) (date m)) rs)), h).
Proof.
  unfold Py.readings_at. intros Hr H.
  induction H as [|x y xs rs Hx _ IH]; cbn [Py.first_before find].
  - reflexivity.
  - unfold Py.bind at 1 2.
    rewrite (get_date_at _ _ _ Hx).
    rewrite (bind_value _ _ _ _ _ (get_date_at _ _ _ Hr)).
    destruct (Date.ltb (date y) (date m)).
    + cbn [Py.ret value_or_zero]. now apply get_value_at.
    + exact IH.
Qed.

Lemma in_month_at (h : Py.store) (year month : Z) (r : Py.ref)
    (m : Measurement) :
  nth_error h r = Some (Py.MeasurementObject m) ->
  Py.in_month year month r h = (Py.Value (in_month year month m), h).
Proof.
  intros Hr. unfold Py.in_month, in_month.
  rewrite (bind_value _ _ _ _ _ (get_date_at _ _ _ Hr)).
  destruct (Date.year (date m) =? year); [|reflexivity].
  now rewrite (bind_value _ _ _ _ _ (get_date_at _ _ _ Hr)).
Qed.

(** One iteration over the store is one iteration over the readings. *)
Lemma loop_body_at (h : Py.store) (items : list Py.ref)
    (ms : list Measurement) (year month : Z) (st : Dec.t * option Dec.t)
    (r : Py.ref) (m : Measurement) :
  Py.readings_at h items ms ->
  nth_error h r = Some (Py.MeasurementObject m) ->
  Py.loop_body items year month st r h
  = (Py.of_result (loop_body ms year month st m), h).
Proof.
  intros Hms Hr. destruct st as [total pv].
  unfold Py.loop_body, loop_body.
  rewrite (bind_value _ _ _ _ _ (in_month_at _ year month _ _ Hr)).
  destruct (in_month year month m); [|reflexivity].
  assert (P : forall (A B : Type) (v : A) (k : A -> Py.M B),
             Py.bind (Py.ret v) k h = k v h) by reflexivity.
  assert (Q : forall v,
             Py.bind (Py.get_value r)
               (fun v0 =>
                  Py.bind (Py.lift (Dec.sub v0 v))
                    (fun delta =>
                       Py.bind (Py.lift (Dec.add total delta))
                         (fun total0 =>
                            Py.bind (Py.get_value r)
                              (fun v' => Py.ret (total0, Some v'))))) h
             = (Py.of_result
                  (d <- Dec.sub (value m) v ;;
                   total0 <- Dec.add total d ;;
                   Returns (total0, Some (value m))), h)).
  { intros v.
    rewrite (bind_value _ _ _ _ _ (get_value_at _ _ _ Hr)).
    unfold Py.bind at 1. unfold Py.lift at 1.
    destruct (Dec.sub (value m) v) as [d|e]; [|reflexivity].
    cbn [Py.of_result bind].
    unfold Py.bind at 1. unfold Py.lift at 1.
    destruct (Dec.add total d) as [t|e]; [|reflexivity].
    cbn [Py.of_result bind].
    now rewrite (bind_value _ _ _ _ _ (get_value_at _ _ _ Hr)). }
  destruct pv as [v|].
  - rewrite P. apply Q.
  - unfold prev_reading.
    rewrite (bind_value _ _ _ _ _
               (first_before_at h r m (rev items) (rev ms) Hr
                  (readings_at_rev _ _ _ Hms))).
    apply Q.
Qed.

Lemma for_each_at (h : Py.store) (items : list Py.ref)
    (ms : list Measurement) (year month : Z) (l : list Py.ref)
    (rs : list Measurement) (st : Dec.t * option Dec.t) :
  Py.readings_at h items ms ->
  Py.readings_at h l rs ->
  Py.for_each (Py.loop_body items year month) l st h
  = (Py.of_result (for_each (loop_body ms year month) rs st), h).
Proof.
  intros Hms H. unfold Py.readings_at in H. revert st.
  induction H as [|r m l rs Hr _ IH]; intros st;
    cbn [Py.for_each for_each].
  - reflexivity.
  - unfold Py.bind. rewrite (loop_body_at _ _ _ _ _ _ _ _ Hms Hr).
    destruct (loop_body ms year month st m) as [st'|e]; cbn [Py.of_result bind].
    + apply IH.
    + reflexivity.
Qed.

(** A call returns what the method returns on the readings of the Service,
    and the store afterwards is the store before with one more object, the
    list that [sorted] built. *)
Lemma consumption_for_month_at (h : Py.store) (self : Py.ref)
    (readings : list Measurement) (year month : Z) :
  Py.service_at h self readings ->
  exists o,
    Py.consumption_for_month self year month h
    = (Py.of_result (consumption readings year month), h ++ [o]).
Proof.
  intros (l & items & Hs & Hl & Hr).
  destruct (sort_keyed_at h items readings Hr) as [Hsorted _].
  set (ms := map snd (Py.sort_keyed (combine (map date readings) items))) in *.
  exists (Py.ListObject ms).
  unfold Py.consumption_for_month.
  rewrite (bind_value _ _ _ _ _ (get_measurements_at _ _ _ Hs)).
  assert (S : Py.sorted l h = (Py.Value (length h), h ++ [Py.ListObject ms])).
  { unfold Py.sorted.
    rewrite (bind_value _ _ _ _ _ (get_items_at _ _ _ Hl)).
    now rewrite (bind_value _ _ _ _ _ (keys_at _ _ _ Hr)). }
  rewrite (bind_value _ _ _ _ _ S).
  assert (I : Py.get_items (length h) (h ++ [Py.ListObject ms])
              = (Py.Value ms, h ++ [Py.ListObject ms])).
  { apply get_items_at.
    rewrite nth_error_app2 by apply Nat.le_refl.
    now rewrite Nat.sub_diag. }
  rewrite (bind_value _ _ _ _ _ I).
  pose proof (readings_at_extend h [Py.ListObject ms] _ _ Hsorted) as E.
  unfold Py.bind. rewrite (for_each_at _ _ _ _ _ _ _ _ E E).
  unfold consumption, consumption_for_month. cbn [fst measurements].
  now destruct (for_each _ (sorted readings) _).
Qed.

Lemma service_at_extend (h e : Py.store) (self : Py.ref)
    (readings : list Measurement) :
  Py.service_at h self readings -> Py.service_at (h ++ e) self readings.
Proof.
  intros (l & items & Hs & Hl & Hr). exists l, items.
  repeat split.
  - now apply nth_error_extend.
  - now apply nth_error_extend.
  - now apply readings_at_extend.
Qed.

(** On the Service of the docstring the call returns 60.0 and adds the
    sorted list to the store. *)
Example consumption_for_month_on_docstring_store :
  Py.consumption_for_month 0%nat 2025 2 Py.docstring_store
  = (Py.Value (D 600 (-1)),
     Py.docstring_store ++ [Py.ListObject [2; 3; 4]%nat]).
Proof. reflexivity. Qed.

(** Had the method sorted [self.measurements] where it is, the call would
    return the same and leave the Service with its readings reordered. *)
Example sorting_in_place_reorders_the_readings :
  Py.consumption_for_month_sorting_in_place 0%nat 2025 2 Py.docstring_store
  = (Py.Value (D 600 (-1)),
     [ Py.ServiceObject 1%nat;
       Py.ListObject [2; 3; 4]%nat;
       Py.MeasurementObject (reading 2025 1 1 (D 1200 (-1)));
       Py.MeasurementObject (reading 2025 2 1 (D 1500 (-1)));
       Py.MeasurementObject (reading 2025 2 20 (D 1800 (-1))) ])
  /\ nth_error Py.docstring_store 1%nat = Some (Py.ListObject [4; 3; 2]%nat).
Proof. split; reflexivity. Qed.

(** * The claims on precision, range and effects *)

Lemma numeric_ok_fits_precision (readings : list Measurement) :
  numeric_ok readings = true -> fits_precision (-3) readings = true.
Proof.
  unfold numeric_ok, fits_precision. rewrite !forallb_forall.
  intros H m Hm. specialize (H m Hm).
  apply fits_on_grid in H. destruct H as [G B].
  unfold Dec.fits_at. apply andb_true_iff. split; [exact G|].
  apply Z.ltb_lt.
  change (Dec.units (-3) (value m)) with (Dec.thousandths (value m)).
  change (10 ^ 12) with 1000000000000 in B.
  change (10 ^ 27) with 1000000000000000000000000000. lia.
Qed.

(** Where the arithmetic is exact the differences telescope. *)
Lemma telescopes_at (g : Z) (readings : list Measurement) (year month : Z)
    (z : Measurement) :
  -1000026 <= g <= 0 ->
  fits_precision g readings = true ->
  NoDup (map date readings) ->
  In z readings ->
  in_month year month z = true ->
  (forall m, In m readings -> in_month year month m = true -> date_le m z) ->
  exists d c,
    consumption readings year month = Returns d
    /\ Dec.on_grid_at g d = true
    /\ is_carry_in readings year month c
    /\ c = carry_in readings year month
    /\ Dec.units g d = Dec.units g (value z) - Dec.units g c.
Proof.
  intros Hg N U Hz Iz Mz.
  destruct (consumption_exact_at g readings year month Hg N)
    as (d & Hd & Gd & Td).
  exists d, (carry_in readings year month).
  repeat split; [exact Hd | exact Gd | now apply carry_in_exists |].
  rewrite Td. unfold exact_sum_of_deltas_at.
  pose proof (month_readings_In readings year month) as In_month.
  pose proof (month_readings_ordered readings year month) as S.
  destruct (month_readings readings year month) as [|first rest] eqn:M.
  - exfalso. apply (In_month z). now split.
  - rewrite (baseline_before_month _ _ _ _ _ M).
    fold (carry_in readings year month).
    rewrite exact_deltas_last. cbn [map].
    rewrite last_cons, (last_of_map (fun m => Dec.units g (value m))).
    assert (E : last rest first = z).
    { destruct (proj1 (In_month (last rest first)) (last_In_cons first rest))
        as [Hw Iw].
      apply (NoDup_dates readings); try assumption.
      apply date_le_antisym.
      - now apply Mz.
      - apply ordered_last; [exact S | apply In_month; now split]. }
    now rewrite E.
Qed.

(** C7 as stated fails: a Decimal operation keeps 28 significant digits and
    rounds what lies beyond.  After a reading of 5E-28 the reading
    1.000000000000000000000000001 gives 1.000000000000000000000000000; and
    the readings 0.5, 9999999999999999999999999999, 0.5, all with at most
    three decimal places, give 0 where the sum of the differences is 0.5. *)
Lemma rounding_beyond_28_digits :
  consumption long_fraction_readings 2025 2
  = Returns (D 1000000000000000000000000000 (-27))
  /\ Dec.units (-28) (D 1000000000000000000000000000 (-27))
     = 10000000000000000000000000000
  /\ exact_sum_of_deltas_at (-28) long_fraction_readings 2025 2
     = 10000000000000000000000000010
  /\ consumption up_and_down_readings 2025 2 = Returns (D 0 0)
  /\ exact_sum_of_deltas up_and_down_readings 2025 2 = 500
  /\ ~ (forall readings year month,
          (forall m, In m readings -> Dec.on_grid (value m) = true) ->
          exists d,
            consumption readings year month = Returns d
            /\ Dec.thousandths d = exact_sum_of_deltas readings year month).
Proof.
  assert (E : consumption up_and_down_readings 2025 2 = Returns (D 0 0))
    by (vm_compute; reflexivity).
  assert (S : exact_sum_of_deltas up_and_down_readings 2025 2 = 500)
    by (vm_compute; reflexivity).
  repeat (split; [vm_compute; reflexivity|]).
  intros H.
  destruct (H up_and_down_readings 2025 2) as (d & Hd & Td).
  - intros m [<-|[<-|[<-|[]]]]; reflexivity.
  - rewrite E in Hd. injection Hd as <-.
    rewrite S in Td. discriminate Td.
Qed.

(** C7, amended. Where the values, written with a common exponent g, have
    at most 27 digits, the Decimal arithmetic of the method is exact: the
    result is the integer sum of the differences counted in units of 10^g,
    with no rounding.  The values of the column type are among them, counted
    in thousandths.  Three readings that rise by 0.1 each, after a baseline
    equal to the first, give Decimal 0.2. *)
Theorem decimal_arithmetic_exact_within_precision :
  (forall g readings year month,
      -1000026 <= g <= 0 ->
      fits_precision g readings = true ->
      exists d,
        consumption readings year month = Returns d
        /\ Dec.on_grid_at g d = true
        /\ Dec.units g d = exact_sum_of_deltas_at g readings year month)
  /\ (forall readings year month,
         numeric_ok readings = true ->
         exists d,
           consumption readings year month = Returns d
           /\ Dec.on_grid d = true
           /\ Dec.thousandths d = exact_sum_of_deltas readings year month)
  /\ consumption tenths_readings 2025 2 = Returns (D 2 (-1)).
Proof.
  split; [|split].
  - intros g readings year month. apply consumption_exact_at.
  - apply consumption_exact.
  - reflexivity.
Qed.

Lemma decimal_arithmetic_exact_within_precision_witness :
  exists d,
    consumption twenty_places_readings 2025 2 = Returns d
    /\ Dec.units (-20) d = 271828182845904523536 - 314159265358979323846.
Proof.
  destruct (proj1 decimal_arithmetic_exact_within_precision
              (-20) twenty_places_readings 2025 2)
    as (d & Hd & _ & Td).
  - lia.
  - reflexivity.
  - exists d. split; [exact Hd | exact Td].
Defined.

(** C8 as stated fails: the method hands on what Decimal raises.  Two finite
    readings, -9E+999999 and 9E+999999, differ by more than the context can
    represent and the subtraction raises Overflow; a reading whose value is
    a signalling NaN raises InvalidOperation. *)
Lemma raises_on_huge_and_signaling_values :
  consumption huge_readings 2025 2 = Raises Overflow
  /\ forallb (fun m => Dec.is_finite (value m)) huge_readings = true
  /\ consumption snan_readings 2025 2 = Raises InvalidOperation
  /\ ~ (forall readings year month,
          (forall m, In m readings -> Dec.is_finite (value m) = true) ->
          exists d, consumption readings year month = Returns d).
Proof.
  assert (E : consumption huge_readings 2025 2 = Raises Overflow)
    by (vm_compute; reflexivity).
  repeat (split; [vm_compute; reflexivity|]).
  intros H.
  destruct (H huge_readings 2025 2) as (d & Hd).
  - intros m [<-|[<-|[]]]; reflexivity.
  - rewrite E in Hd. discriminate Hd.
Qed.

(** C8, amended. For readings whose values are finite and of magnitude
    below 10^n, where n plus twice the number of readings plus 2 is at most
    1000000, the method raises nothing and returns a finite Decimal, for
    every integer year and month, in or out of the calendar's range.  So it
    does on values of the column type, however many. *)
Theorem consumption_returns_away_from_Emax :
  (forall readings year month n,
      n + 2 * Z.of_nat (length readings) + 2 <= 1000000 ->
      magnitudes_below n readings = true ->
      exists d,
        consumption readings year month = Returns d
        /\ Dec.is_finite d = true)
  /\ (forall readings year month,
         numeric_ok readings = true ->
         exists d,
           consumption readings year month = Returns d
           /\ Dec.is_finite d = true).
Proof.
  split.
  - intros readings year month n. apply consumption_below.
  - intros readings year month N.
    destruct (consumption_exact readings year month N) as (d & Hd & Gd & _).
    exists d. split; [exact Hd|].
    now destruct d.
Qed.

Lemma consumption_returns_away_from_Emax_witness :
  (exists d,
      consumption mixed_scale_readings 2025 2 = Returns d
      /\ Dec.is_finite d = true)
  /\ (exists d,
         consumption mixed_scale_readings (-2025) 14 = Returns d
         /\ Dec.is_finite d = true).
Proof.
  split.
  - apply (proj1 consumption_returns_away_from_Emax
             mixed_scale_readings 2025 2 41); [cbn; lia | reflexivity].
  - apply (proj1 consumption_returns_away_from_Emax
             mixed_scale_readings (-2025) 14 41); [cbn; lia | reflexivity].
Defined.

(** C9. A call changes no object that exists: on a store where [self] is a
    Service whose list holds the given readings, the call ends (returning or
    raising) as the method does on those readings, every object of the store
    is afterwards what it was, so the Service holds the same readings in
    the same order, and a second call ends as the first did. *)
Theorem call_leaves_the_readings_unchanged :
  forall h self readings year month,
    Py.service_at h self readings ->
    let (r, h') := Py.consumption_for_month self year month h in
    r = Py.of_result (consumption readings year month)
    /\ (forall x o, nth_error h x = Some o -> nth_error h' x = Some o)
    /\ Py.service_at h' self readings
    /\ fst (Py.consumption_for_month self year month h') = r.
Proof.
  intros h self readings year month H.
  destruct (consumption_for_month_at h self readings year month H)
    as (o & E).
  rewrite E.
  pose proof (service_at_extend h [o] self readings H) as H'.
  destruct (consumption_for_month_at (h ++ [o]) self readings year month H')
    as (o' & E').
  repeat split.
  - intros x ob Hx. now apply nth_error_extend.
  - exact H'.
  - now rewrite E'.
Qed.

Lemma call_leaves_the_readings_unchanged_witness :
  fst (Py.consumption_for_month 0%nat 2025 2
         (snd (Py.consumption_for_month 0%nat 2025 2 Py.docstring_store)))
  = Py.Value (D 600 (-1))
  /\ Py.service_at
       (snd (Py.consumption_for_month 0%nat 2025 2 Py.docstring_store))
       0%nat (rev docstring_readings).
Proof.
  assert (H : Py.service_at Py.docstring_store 0%nat (rev docstring_readings)).
  { exists 1%nat, [4; 3; 2]%nat.
    repeat split; repeat constructor. }
  pose proof (call_leaves_the_readings_unchanged
                Py.docstring_store 0%nat (rev docstring_readings) 2025 2 H)
    as T.
  destruct (Py.consumption_for_month 0%nat 2025 2 Py.docstring_store)
    as [r h'].
  destruct T as (Er & _ & Hs & E2).
  cbn [snd]. split; [|exact Hs].
  rewrite E2, Er. reflexivity.
Defined.

(** C10 as stated fails: with the readings 0.5 and
    9999999999999999999999999999 on two days of February and none before,
    the latest value minus the carry-in is 9999999999999999999999999999 and
    the method returns 9999999999999999999999999998. *)
Lemma telescoping_fails_beyond_28_digits :
  NoDup (map date wide_readings)
  /\ consumption wide_readings 2025 2
     = Returns (D 9999999999999999999999999998 0)
  /\ carry_in wide_readings 2025 2 = Dec.zero
  /\ Dec.sub (D 9999999999999999999999999999 0) Dec.zero
     = Returns (D 9999999999999999999999999999 0)
  /\ ~ (forall readings year month latest_in_month,
          NoDup (map date readings) ->
          In latest_in_month readings ->
          in_month year month latest_in_month = true ->
          (forall m, In m readings -> in_month year month m = true ->
                     date_le m latest_in_month) ->
          exists d,
            consumption readings year month = Returns d
            /\ Dec.thousandths d
               = Dec.thousandths (value latest_in_month)
                 - Dec.thousandths (carry_in readings year month)).
Proof.
  assert (U : NoDup (map date wide_readings)).
  { unfold wide_readings, reading. cbn [map date].
    repeat constructor; cbn [In]; intuition discriminate. }
  assert (E : consumption wide_readings 2025 2
              = Returns (D 9999999999999999999999999998 0))
    by (vm_compute; reflexivity).
  assert (C : carry_in wide_readings 2025 2 = Dec.zero)
    by (vm_compute; reflexivity).
  split; [exact U|].
  repeat (split; [vm_compute; reflexivity|]).
  intros H.
  destruct (H wide_readings 2025 2
              (reading 2025 2 2 (D 9999999999999999999999999999 0)) U)
    as (d & Hd & Td).
  - right. now left.
  - reflexivity.
  - intros m [<-|[<-|[]]] _; reflexivity.
  - rewrite E in Hd. injection Hd as <-.
    rewrite C in Td. vm_compute in Td. discriminate Td.
Qed.

(** C10, amended. With pairwise distinct dates, a reading in the target
    month, and values that, written with a common exponent g, have at most
    27 digits, the result is the value of the latest reading of the month
    minus the carry-in value (the value of the latest reading of an earlier
    month, or zero); the readings in between cancel.  The values of the
    column type are among them, counted in thousandths. *)
Theorem consumption_telescopes_within_precision :
  (forall g readings year month latest_in_month,
      -1000026 <= g <= 0 ->
      fits_precision g readings = true ->
      NoDup (map date readings) ->
      In latest_in_month readings ->
      in_month year month latest_in_month = true ->
      (forall m, In m readings -> in_month year month m = true ->
                 date_le m latest_in_month) ->
      exists d c,
        consumption readings year month = Returns d
        /\ Dec.on_grid_at g d = true
        /\ is_carry_in readings year month c
        /\ c = carry_in readings year month
        /\ Dec.units g d = Dec.units g (value latest_in_month) - Dec.units g c)
  /\ (forall readings year month latest_in_month,
         numeric_ok readings = true ->
         NoDup (map date readings) ->
         In latest_in_month readings ->
         in_month year month latest_in_month = true ->
         (forall m, In m readings -> in_month year month m = true ->
                    date_le m latest_in_month) ->
         exists d c,
           consumption readings year month = Returns d
           /\ Dec.on_grid d = true
           /\ is_carry_in readings year month c
           /\ c = carry_in readings year month
           /\ Dec.thousandths d
              = Dec.thousandths (value latest_in_month) - Dec.thousandths c).
Proof.
  split.
  - intros g readings year month z. apply telescopes_at.
  - intros readings year month z N.
    apply (telescopes_at (-3) readings year month z); [lia|].
    now apply numeric_ok_fits_precision.
Qed.

Lemma consumption_telescopes_within_precision_witness :
  exists d,
    consumption twenty_places_readings 2025 2 = Returns d
    /\ Dec.units (-20) d = 271828182845904523536 - 314159265358979323846.
Proof.
  destruct (proj1 consumption_telescopes_within_precision
              (-20) twenty_places_readings 2025 2
              (reading 2025 2 2 (D 271828182845904523536 (-20))))
    as (d & c & Hd & _ & _ & Hc & Td).
  - lia.
  - reflexivity.
  - cbn. repeat constructor; cbn; intuition discriminate.
  - cbn. tauto.
  - reflexivity.
  - intros m Hm Im. cbn in Hm.
    destruct Hm as [<-|[<-|[<-|[]]]]; first [reflexivity | discriminate Im].
  - exists d. split; [exact Hd|]. rewrite Td, Hc. reflexivity.
Defined.
